(** * ant-design-vue Tabs: a shallow embedding of [components/tabs/src]

    The development follows the source file in order:
    - [Js]: the fragment of JavaScript values the component manipulates,
      with property reads that fault on [undefined] and [null];
    - [Normalizer]: [parseTabList], the pass turning raw children into
      tab records;
    - [Tabs]: the [InternalTabs] component: animation configuration,
      active-key reconciliation, effective position, accessibility id,
      and the event bridge. *)

From stdpp Require Import base option list strings gmap pretty.
From Stdlib Require Import ZArith Lia Ascii.

Open Scope string_scope.
Open Scope Z_scope.

(* ================================================================== *)
(** * JavaScript values *)
(* ================================================================== *)

Module Js.

(** Values. Numbers are the integral ones; a symbol is known by its
    description; a plain object is the list of its own enumerable
    string-keyed data properties in property order; a function is known
    by its source text. *)
#[warnings="-register-all"]
Inductive JsVal : Type :=
  | JUndefined
  | JNull
  | JBool (b : bool)
  | JNum (n : Z)
  | JStr (s : string)
  | JSym (description : string)
  | JObj (entries : list (string * JsVal))
  | JFun (src : string).

(** Faults raised by the runtime. *)
Inductive JsError : Type :=
  | TypeError (msg : string).

Definition Result (A : Type) : Type := (JsError + A)%type.

#[global] Instance result_ret : MRet Result := λ A x, inr x.
#[global] Instance result_bind : MBind Result := λ A B f m,
  match m with
  | inl e => inl e
  | inr x => f x
  end.

(** ToBoolean. *)
Definition truthy (v : JsVal) : bool :=
  match v with
  | JUndefined | JNull => false
  | JBool b => b
  | JNum n => negb (n =? 0)
  | JStr s => negb (String.eqb s "")
  | JSym _ | JObj _ | JFun _ => true
  end.

(** [a || b] *)
Definition js_or (a b : JsVal) : JsVal := if truthy a then a else b.

(** [v === s] for a string literal [s]. *)
Definition strict_eq_str (v : JsVal) (s : string) : bool :=
  match v with
  | JStr s' => String.eqb s' s
  | _ => false
  end.

(** [v === b] for a boolean literal [b]. *)
Definition strict_eq_bool (v : JsVal) (b : bool) : bool :=
  match v with
  | JBool b' => Bool.eqb b' b
  | _ => false
  end.

(** [v === undefined] *)
Definition is_undefined (v : JsVal) : bool :=
  match v with
  | JUndefined => true
  | _ => false
  end.

(** [typeof v === 'object'] ([typeof null] is ['object'] too). *)
Definition typeof_object (v : JsVal) : bool :=
  match v with
  | JNull | JObj _ => true
  | _ => false
  end.

(** First binding of [k] in a property list. *)
Fixpoint assoc (k : string) (es : list (string * JsVal)) : option JsVal :=
  match es with
  | [] => None
  | (k', v) :: es' => if String.eqb k' k then Some v else assoc k es'
  end.

(** [v.k] (or [v[k]]): a property read. Reading from [undefined] or
    [null] is a TypeError; the primitives and functions carry none of
    the property names the component reads. *)
Definition get_prop (v : JsVal) (k : string) : Result JsVal :=
  match v with
  | JUndefined => inl (TypeError "Cannot read properties of undefined")
  | JNull => inl (TypeError "Cannot read properties of null")
  | JObj es => inr (default JUndefined (assoc k es))
  | _ => inr JUndefined
  end.

(** The characters of a string as indexed properties. *)
Fixpoint string_entries (i : N) (s : string) : list (string * JsVal) :=
  match s with
  | EmptyString => []
  | String c s' => (pretty i, JStr (String c EmptyString)) :: string_entries (N.succ i) s'
  end.

(** The own enumerable properties [{...v}] copies and
    [Object.entries(v)] lists. *)
Definition own_entries (v : JsVal) : list (string * JsVal) :=
  match v with
  | JObj es => es
  | JStr s => string_entries 0 s
  | _ => []
  end.

(** [String(v)]. The printing of a number is the language's
    [Number::toString], decimal below 10^21 and in exponent notation
    from there on; it is taken as [Number_toString]. A plain object
    stringifies through [Object.prototype.toString]. *)
Definition String_ (Number_toString : Z → string) (v : JsVal) : string :=
  match v with
  | JUndefined => "undefined"
  | JNull => "null"
  | JBool true => "true"
  | JBool false => "false"
  | JNum n => Number_toString n
  | JStr s => s
  | JSym d => "Symbol(" +:+ d +:+ ")"
  | JObj _ => "[object Object]"
  | JFun src => src
  end.

(** Objects the component builds are finite maps from property names. *)
Abbreviation Obj := (gmap string JsVal).

(** [o.k] on a built object. *)
Definition field (o : Obj) (k : string) : JsVal := default JUndefined (o !! k).

(** [o[k] = v] and the literal member [k: v], for an ordinary property
    name ([__proto__], an accessor, is not one). *)
Definition assign (o : Obj) (k : string) (v : JsVal) : Obj := <[k := v]> o.

(** The literal member [...src]: properties of [src] override. *)
Definition spread (o src : Obj) : Obj := src ∪ o.

(** [{ ...v }] *)
Definition copy_of (v : JsVal) : Obj := list_to_map (own_entries v).


End Js.

(* ================================================================== *)
(** * Tab descriptor normalizer *)
(* ================================================================== *)

Module Normalizer.
Import Js.

Section ParseTabList.

(** [isValidElement] of [_util/props-util] (truthiness of its result)
    and [camelize] of vue are imported by the source; [Number_toString]
    is the number printer behind [String]. *)
Variable isValidElement : JsVal → bool.
Variable camelize : string → string.
Variable Number_toString : Z → string.

(** The renaming loop
    [for (const [k, v] of Object.entries(props)) {
       delete props[k]; props[camelize(k)] = v; }] *)
Definition camelize_step (props : Obj) (kv : string * JsVal) : Obj :=
  assign (delete kv.1 props) (camelize kv.1) kv.2.

Definition camelize_props (raw : JsVal) : Obj :=
  fold_left camelize_step (own_entries raw) (copy_of raw).

(** [x === '' || x] *)
Definition attr_flag (x : JsVal) : JsVal :=
  js_or (JBool (strict_eq_str x "")) x.

(** The callback of [children.map]: a tab record, or [null] (here
    [None]) for a node that is not an element. *)
Definition parse_node (node : JsVal) : Result (option Obj) :=
  if isValidElement node then
    rawProps ← get_prop node "props";
    let props := camelize_props (js_or rawProps (JObj [])) in
    rawChildren ← get_prop node "children";
    let slots := js_or rawChildren (JObj []) in
    nodeKey ← get_prop node "key";
    let key := if negb (is_undefined nodeKey) then JStr (String_ Number_toString nodeKey) else JUndefined in
    slotsTab ← get_prop slots "tab";
    let tab := if is_undefined (field props "tab") then slotsTab else field props "tab" in
    let disabled := field props "disabled" in
    let forceRender := field props "forceRender" in
    let closable := field props "closable" in
    let animated := field props "animated" in
    let active := field props "active" in
    let destroyInactiveTabPane := field props "destroyInactiveTabPane" in
    closeIcon ← get_prop slots "closeIcon";
    let o := assign ∅ "key" key in
    let o := spread o props in
    let o := assign o "node" node in
    let o := assign o "closeIcon" closeIcon in
    let o := assign o "tab" tab in
    let o := assign o "disabled" (attr_flag disabled) in
    let o := assign o "forceRender" (attr_flag forceRender) in
    let o := assign o "closable" (attr_flag closable) in
    let o := assign o "animated" (attr_flag animated) in
    let o := assign o "active" (attr_flag active) in
    let o := assign o "destroyInactiveTabPane" (attr_flag destroyInactiveTabPane) in
    mret (Some o)
  else mret None.

(** [children.map(...).filter(tab => tab)]: a record is an object, so
    truthy; [null] is dropped. *)
Definition parseTabList (children : list JsVal) : Result (list Obj) :=
  tabs ← mapM parse_node children;
  mret (omap id tabs).

End ParseTabList.

(** The attributes [parseTabList] treats as flags. *)
Definition flag_attrs : list string :=
  ["disabled"; "forceRender"; "closable"; "animated"; "active";
   "destroyInactiveTabPane"].

(** The props an element declares, as read after the renaming loop. *)
Definition declared_props (camelize : string → string) (node : JsVal) : Obj :=
  match get_prop node "props" with
  | inr raw => camelize_props camelize (js_or raw (JObj []))
  | inl _ => ∅
  end.

(** vue's [camelize]: [str.replace(/-(\w)/g, (_, c) => c.toUpperCase())]. *)
Definition is_word (c : Ascii.ascii) : bool :=
  let n := Ascii.nat_of_ascii c in
  ((48 <=? n) && (n <=? 57) || (65 <=? n) && (n <=? 90)
   || (97 <=? n) && (n <=? 122) || (n =? 95))%nat.

Definition to_upper (c : Ascii.ascii) : Ascii.ascii :=
  let n := Ascii.nat_of_ascii c in
  if ((97 <=? n) && (n <=? 122))%nat then Ascii.ascii_of_nat (n - 32) else c.

Fixpoint vue_camelize (s : string) : string :=
  match s with
  | EmptyString => EmptyString
  | String a tl =>
      match tl with
      | String c rest =>
          if Ascii.eqb a "-"%char && is_word c
          then String (to_upper c) (vue_camelize rest)
          else String a (vue_camelize tl)
      | EmptyString => String a EmptyString
      end
  end.

(** Decimal notation: what [Number::toString] gives for an integer of
    magnitude below 10^21. *)
Definition decimal (n : Z) : string := pretty n.

(** An element is an object flagged as a vnode. *)
Definition is_vnode (v : JsVal) : bool :=
  match v with
  | JObj es => truthy (default JUndefined (assoc "__v_isVNode" es))
  | _ => false
  end.

End Normalizer.

(* ================================================================== *)
(** * The InternalTabs component *)
(* ================================================================== *)

Module Tabs.
Import Js.

(** A key is a string, or [undefined] (here [None]). *)
Definition Key : Type := option string.

(** [interface Tab]: the component logic reads the key only. *)
Record Tab : Type := mkTab {
  key : Key;
  node : JsVal;
}.

(** The props the logic reads. A handler prop is recorded by whether it
    was supplied; its invocations are logged as effects. *)
Record Props : Type := mkProps {
  id : option string;
  activeKey : Key;
  defaultActiveKey : Key;
  animated : JsVal;
  tabPosition : string;
  type : option string;
  hideAdd : bool;
  onEdit : bool;
  onChange : bool;
  onTabClick : bool;
  tabs : list Tab;
}.

(** Signals of the environment: [isMobile()] and
    [process.env.NODE_ENV === 'test']. *)
Record Env : Type := mkEnv {
  isMobile : bool;
  node_env_test : bool;
}.

(** The reactive state of one mounted component. *)
Record Instance : Type := mkInstance {
  mobile : bool;
  innerActiveKey : Key;
  activeIndex : Z;
  innerId : option string;
}.

(** The module-level counter [uuid] together with the instance at hand. *)
Record World : Type := mkWorld {
  uuid : N;
  self : Instance;
}.

Inductive DomEvent : Type :=
  | MouseEvent (n : nat)
  | KeyboardEvent (n : nat).

Inductive EditType : Type := add | remove.

(** First argument handed to [props.onEdit]. *)
Inductive EditArg : Type :=
  | EditEvent (e : DomEvent)
  | EditKey (k : Key).

(** What an operation does, in order: state writes and handler calls. *)
Inductive Effect : Type :=
  | SetMobile (b : bool)
  | SetMergedActiveKey (k : Key)
  | SetActiveIndex (i : Z)
  | SetMergedId (s : string)
  | CallOnTabClick (k : string) (e : DomEvent)
  | CallOnChange (k : string)
  | CallOnEdit (a : EditArg) (t : EditType).

(** State and log. *)
Definition M (A : Type) : Type := World → A * World * list Effect.

#[global] Instance M_ret : MRet M := λ A x w, (x, w, []).
#[global] Instance M_bind : MBind M := λ A B f m w,
  let '(x, w1, l1) := m w in
  let '(y, w2, l2) := f x w1 in
  (y, w2, (l1 ++ l2)%list).

Definition skip : M unit := mret tt.
Definition emit (e : Effect) : M unit := λ w, (tt, w, [e]).
Definition read {A} (f : World → A) : M A := λ w, (f w, w, []).
Definition write (f : World → World) : M unit := λ w, (tt, f w, []).
Definition exec {A} (m : M A) (w : World) : World := (m w).1.2.
Definition log {A} (m : M A) (w : World) : list Effect := (m w).2.

Definition with_self (f : Instance → Instance) (w : World) : World :=
  mkWorld (uuid w) (f (self w)).

(** ** The hooks *)

(** Modelled from the spec: [useMergedState] of [_util/hooks], which the
    component imports. "If controlled externally, the externally supplied
    value takes precedence; otherwise falls back to an internal default,
    which itself falls back to" the initial state value "if unset."
    The state holds the inner value; the setter writes it. *)
Definition useMergedState_init {T} (defaultStateValue defaultValue : option T) : option T :=
  match defaultValue with
  | Some d => Some d
  | None => defaultStateValue
  end.

Definition useMergedState_value {T} (value inner : option T) : option T :=
  match value with
  | Some v => Some v
  | None => inner
  end.

(** [mergedActiveKey.value] *)
Definition mergedActiveKey (p : Props) (i : Instance) : Key :=
  useMergedState_value (activeKey p) (innerActiveKey i).

Definition setMergedActiveKey (k : Key) : M unit :=
  write (with_self (λ i, mkInstance (mobile i) k (activeIndex i) (innerId i)));;
  emit (SetMergedActiveKey k).

(** [mergedId.value] *)
Definition mergedId (p : Props) (i : Instance) : option string :=
  useMergedState_value (id p) (innerId i).

Definition setMergedId (s : string) : M unit :=
  write (with_self (λ i, mkInstance (mobile i) (innerActiveKey i) (activeIndex i) (Some s)));;
  emit (SetMergedId s).

Definition setActiveIndex (n : Z) : M unit :=
  write (with_self (λ i, mkInstance (mobile i) (innerActiveKey i) n (innerId i)));;
  emit (SetActiveIndex n).

Definition setMobile (b : bool) : M unit :=
  write (with_self (λ i, mkInstance b (innerActiveKey i) (activeIndex i) (innerId i)));;
  emit (SetMobile b).

(** ** Array helpers *)

(** [l.findIndex(f)]: the first index satisfying [f], or [-1]. *)
Fixpoint findIndex_from {A} (f : A → bool) (l : list A) (i : Z) : Z :=
  match l with
  | [] => -1
  | x :: l' => if f x then i else findIndex_from f l' (i + 1)
  end.

Definition findIndex {A} (f : A → bool) (l : list A) : Z := findIndex_from f l 0.

(** [l[i]?.key] *)
Definition key_at (l : list Tab) (i : Z) : Key :=
  if i <? 0 then None else l !! Z.to_nat i ≫= key.

(** [tab.key === k] *)
Definition key_is (k : Key) (tab : Tab) : bool := bool_decide (key tab = k).

(** ** Animated configuration *)

Definition mergedAnimated (p : Props) : Obj :=
  if strict_eq_bool (animated p) false then
    assign (assign ∅ "inkBar" (JBool false)) "tabPane" (JBool false)
  else if strict_eq_bool (animated p) true then
    assign (assign ∅ "inkBar" (JBool true)) "tabPane" (JBool true)
  else
    spread (assign (assign ∅ "inkBar" (JBool true)) "tabPane" (JBool false))
           (copy_of (if typeof_object (animated p) then animated p else JObj [])).

(** ** Active key *)

(** The state [setup] creates: the merged key starts from
    [defaultActiveKey], else from [props.tabs[0]?.key]; the index is
    looked up once. *)
Definition setup_instance (p : Props) : Instance :=
  let inner := useMergedState_init (key_at (tabs p) 0) (defaultActiveKey p) in
  let merged := useMergedState_value (activeKey p) inner in
  mkInstance false inner (findIndex (key_is merged) (tabs p)) None.

(** The body of the [watchEffect]. *)
Definition reconcile (p : Props) : M unit :=
  cur ← read (λ w, mergedActiveKey p (self w));
  let newActiveIndex := findIndex (key_is cur) (tabs p) in
  if newActiveIndex =? -1 then
    prev ← read (λ w, activeIndex (self w));
    let newActiveIndex := Z.max 0 (Z.min prev (Z.of_nat (length (tabs p)) - 1)) in
    setMergedActiveKey (key_at (tabs p) newActiveIndex);;
    setActiveIndex newActiveIndex
  else
    setActiveIndex newActiveIndex.

(** ** Effective position *)

Definition includes (l : list string) (s : string) : bool := bool_decide (s ∈ l).

Definition mergedTabPosition (p : Props) (i : Instance) : string :=
  if mobile i && negb (includes ["left"; "right"] (tabPosition p))
  then "top"
  else tabPosition p.

(** ** Mounting *)

Definition onMounted_mobile (env : Env) : M unit :=
  setMobile (isMobile env).

(** [!props.id]: an absent id and the empty string are both falsy. *)
Definition id_falsy (o : option string) : bool :=
  match o with
  | None => true
  | Some s => String.eqb s ""
  end.

Definition onMounted_id (env : Env) (p : Props) : M unit :=
  if id_falsy (id p) then
    u ← read uuid;
    setMergedId ("rc-tabs-" +:+ (if node_env_test env then "test" else pretty u));;
    write (λ w, mkWorld (uuid w + 1) (self w))
  else skip.

(** Creating and mounting one component on top of a counter value. *)
Definition mount (env : Env) (p : Props) : M unit :=
  write (λ w, mkWorld (uuid w) (setup_instance p));;
  reconcile p;;
  onMounted_mobile env;;
  onMounted_id env p.

(** ** Events *)

Definition onInternalTabClick (p : Props) (k : string) (e : DomEvent) : M unit :=
  (if onTabClick p then emit (CallOnTabClick k e) else skip);;
  setMergedActiveKey (Some k);;
  (if onChange p then emit (CallOnChange k) else skip).

Record EditInfo : Type := mkEditInfo {
  info_key : Key;
  info_event : DomEvent;
}.

Record EditableConfig : Type := mkEditable {
  editable_onEdit : EditType → EditInfo → M unit;
  showAdd : bool;
}.

Definition is_add (t : EditType) : bool :=
  match t with
  | add => true
  | remove => false
  end.

(** The [editable] object of the render function. *)
Definition editable (p : Props) : option EditableConfig :=
  if bool_decide (type p = Some "editable-card") then
    Some (mkEditable
      (λ editType info,
         if onEdit p
         then emit (CallOnEdit (if is_add editType
                                then EditEvent (info_event info)
                                else EditKey (info_key info)) editType)
         else skip)
      (negb (hideAdd p)))
  else None.

(** ** Runs of the component *)

(** A component in its surroundings. *)
Record Config : Type := mkConfig {
  props : Props;
  world : World;
}.

Definition with_tabs (l : list Tab) (p : Props) : Props :=
  mkProps (id p) (activeKey p) (defaultActiveKey p) (animated p) (tabPosition p)
          (type p) (hideAdd p) (onEdit p) (onChange p) (onTabClick p) l.

Definition with_activeKey (k : Key) (p : Props) : Props :=
  mkProps (id p) k (defaultActiveKey p) (animated p) (tabPosition p)
          (type p) (hideAdd p) (onEdit p) (onChange p) (onTabClick p) (tabs p).

(** The effect runs again whenever something it read has changed, so
    after a change it runs once or more. *)
Fixpoint rerun (n : nat) (p : Props) (w : World) : World :=
  match n with
  | O => w
  | S n' => rerun n' p (exec (reconcile p) w)
  end.

Definition flush (n : nat) (c : Config) : Config :=
  mkConfig (props c) (rerun (S n) (props c) (world c)).

(** The parent re-renders with a new tab list. *)
Definition change_tabs (l : list Tab) (c : Config) : Config :=
  mkConfig (with_tabs l (props c)) (world c).

(** The parent passes a new [activeKey]. *)
Definition change_activeKey (k : Key) (c : Config) : Config :=
  mkConfig (with_activeKey k (props c)) (world c).

(** The user clicks a tab. *)
Definition click (k : string) (e : DomEvent) (c : Config) : Config :=
  mkConfig (props c) (exec (onInternalTabClick (props c) k e) (world c)).

Inductive step : Config → Config → Prop :=
  | step_tabs c l n : step c (flush n (change_tabs l c))
  | step_activeKey c k n : step c (flush n (change_activeKey k c))
  | step_click c k e n : step c (flush n (click k e c)).

Inductive reachable : Config → Prop :=
  | reach_mount env p w :
      reachable (mkConfig p (exec (mount env p) w))
  | reach_step c c' : reachable c → step c c' → reachable c'.

End Tabs.

(* ================================================================== *)
(** * Predicates of the specification *)
(* ================================================================== *)

Module Properties.
Import Js Tabs.

(** The merged active key of a configuration. *)
Definition active (c : Config) : Key :=
  mergedActiveKey (props c) (self (world c)).

(** The active key is the key of a tab of the list, or the list is
    empty and the key unset. *)
Definition key_valid (c : Config) : Prop :=
  (∃ tab, tab ∈ tabs (props c) ∧ key tab = active c)
  ∨ (tabs (props c) = [] ∧ active c = None).

(** The active key is what some index of the list yields, the clamped
    one included. *)
Definition key_derivable (c : Config) : Prop :=
  ∃ i, key_at (tabs (props c)) i = active c.

(** The clamp of [i] into [[0, n-1]]. *)
Definition clamp (i : Z) (n : nat) : Z :=
  Z.max 0 (Z.min i (Z.of_nat n - 1)).

(** The defaults of the [animated] prop. *)
Definition animated_defaults : Obj :=
  {[ "inkBar" := JBool true; "tabPane" := JBool false ]}.

(** The id generated at counter value [u]. *)
Definition fresh_id (env : Env) (u : N) : string :=
  "rc-tabs-" +:+ (if node_env_test env then "test" else pretty u).

(** The ids handed to [setMergedId] in a log. *)
Definition generated_ids (l : list Effect) : list string :=
  omap (λ e, match e with SetMergedId s => Some s | _ => None end) l.

(** The id a mount hands to [setMergedId], if it does. *)
Definition generated_id (env : Env) (p : Props) (w : World) : option string :=
  match log (onMounted_id env p) w with
  | [SetMergedId s] => Some s
  | _ => None
  end.

End Properties.

(* ================================================================== *)
(** * Sample inputs *)
(* ================================================================== *)

Module Samples.
Import Js Normalizer Tabs.

Definition pane (k : string) : Tab := mkTab (Some k) JNull.

Definition browser : Env := mkEnv false false.
Definition phone : Env := mkEnv true false.
Definition test_env : Env := mkEnv false true.

(** Handlers supplied, nothing else set; three panes. *)
Definition plain : Props :=
  mkProps None None None (JObj [("inkBar", JBool true); ("tabPane", JBool false)])
          "top" (Some "editable-card") false true true true
          [pane "a"; pane "x"; pane "b"].

(** The same under external control, with pane [x] selected. *)
Definition controlled : Props := with_activeKey (Some "x") plain.

Definition with_id (i : option string) (p : Props) : Props :=
  mkProps i (activeKey p) (defaultActiveKey p) (animated p) (tabPosition p)
          (type p) (hideAdd p) (onEdit p) (onChange p) (onTabClick p) (tabs p).

Definition with_animated (a : JsVal) (p : Props) : Props :=
  mkProps (id p) (activeKey p) (defaultActiveKey p) a (tabPosition p)
          (type p) (hideAdd p) (onEdit p) (onChange p) (onTabClick p) (tabs p).

Definition with_tabPosition (s : string) (p : Props) : Props :=
  mkProps (id p) (activeKey p) (defaultActiveKey p) (animated p) s
          (type p) (hideAdd p) (onEdit p) (onChange p) (onTabClick p) (tabs p).

Definition fresh : World := mkWorld 0 (setup_instance plain).

(** A controlled component after mounting, and after its selected pane
    is removed from the list. *)
Definition mounted_controlled : Config :=
  mkConfig controlled (exec (mount browser controlled) fresh).

Definition after_removal : Config :=
  flush 0 (change_tabs [pane "a"; pane "b"] mounted_controlled).

(** The state of an uncontrolled component whose selected pane [x], at
    index 1, has just left the list. *)
Definition orphaned : World := mkWorld 1 (mkInstance false (Some "x") 1 None).

(** An uncontrolled component after mounting. *)
Definition mounted_plain : Config :=
  mkConfig plain (exec (mount browser plain) fresh).

(** Children as a template hands them over: two panes around a comment
    and a text node. *)
Definition pane_node (k : JsVal) (ps : list (string * JsVal)) : JsVal :=
  JObj [("__v_isVNode", JBool true); ("key", k); ("props", JObj ps);
        ("children", JObj [("tab", JFun "() => label")])].

Definition children : list JsVal :=
  [ pane_node (JNum 1) [("force-render", JStr ""); ("disabled", JBool false)];
    JNull;
    JStr "text";
    pane_node JUndefined [("closable", JStr "")] ].

Definition parsed : list Obj :=
  match parseTabList is_vnode vue_camelize decimal children with
  | inr tabs => tabs
  | inl _ => []
  end.

Definition first_tab : Obj := default ∅ (parsed !! 0%nat).
Definition second_tab : Obj := default ∅ (parsed !! 1%nat).

End Samples.

(* ================================================================== *)
(** * Readings of an element *)
(* ================================================================== *)

Module Views.
Import Js Normalizer.

(** A property read that is known not to fault. *)
Definition read (v : JsVal) (k : string) : JsVal :=
  match get_prop v k with
  | inr x => x
  | inl _ => JUndefined
  end.

(** [node.children || {}] *)
Definition slots_of (node : JsVal) : JsVal := js_or (read node "children") (JObj []).

(** The record [parseTabList] builds for an element, written with
    [read]. *)
Definition record_of (camelize : string → string) (Number_toString : Z → string)
  (node : JsVal) : Obj :=
  let props := declared_props camelize node in
  let slots := slots_of node in
  let key :=
    if negb (is_undefined (read node "key"))
    then JStr (String_ Number_toString (read node "key")) else JUndefined in
  let tab :=
    if is_undefined (field props "tab") then read slots "tab" else field props "tab" in
  let o := assign ∅ "key" key in
  let o := spread o props in
  let o := assign o "node" node in
  let o := assign o "closeIcon" (read slots "closeIcon") in
  let o := assign o "tab" tab in
  let o := assign o "disabled" (attr_flag (field props "disabled")) in
  let o := assign o "forceRender" (attr_flag (field props "forceRender")) in
  let o := assign o "closable" (attr_flag (field props "closable")) in
  let o := assign o "animated" (attr_flag (field props "animated")) in
  let o := assign o "active" (attr_flag (field props "active")) in
  assign o "destroyInactiveTabPane"
    (attr_flag (field props "destroyInactiveTabPane")).

(** The names the record literal sets after the spread of the props. *)
Definition reserved : list string :=
  ["node"; "closeIcon"; "tab"; "disabled"; "forceRender"; "closable";
   "animated"; "active"; "destroyInactiveTabPane"].

End Views.

(* ================================================================== *)
(** * The ATabs wrapper *)
(* ================================================================== *)

Module ATabs.
Import Js Tabs.

(** [emit('update:activeKey', key)] and [emit('change', key)]. *)
Inductive Emit : Type :=
  | EmitUpdateActiveKey (key : string)
  | EmitChange (key : string).

Definition handleChange (key : string) : list Emit :=
  [EmitUpdateActiveKey key; EmitChange key].

(** The props the wrapper renders [InternalTabs] with:
    [{...props} {...attrs} onChange={handleChange} tabs={tabs}]. *)
Definition internal_props (p : Props) (l : list Tab) : Props :=
  mkProps (id p) (activeKey p) (defaultActiveKey p) (animated p) (tabPosition p)
          (type p) (hideAdd p) (onEdit p) true (onTabClick p) l.

(** What the wrapper emits while the inner component runs: its
    [onChange] is [handleChange]. *)
Definition emitted (l : list Effect) : list Emit :=
  l ≫= λ e, match e with
            | CallOnChange k => handleChange k
            | _ => []
            end.

End ATabs.

(* ================================================================== *)
(** * Longer runs *)
(* ================================================================== *)

Module Runs.
Import Js Tabs Properties.

(** Components mounted one after the other on the shared counter; the
    ids they receive. *)
Fixpoint mount_all (env : Env) (ps : list Props) (w : World) : list (option string) :=
  match ps with
  | [] => []
  | p :: ps' =>
      let w' := exec (mount env p) w in
      mergedId p (self w') :: mount_all env ps' w'
  end.

(** The handler calls of a log, state writes left out. *)
Definition is_call (e : Effect) : bool :=
  match e with
  | CallOnTabClick _ _ | CallOnChange _ | CallOnEdit _ _ => true
  | _ => false
  end.

Definition calls (l : list Effect) : list Effect := List.filter is_call l.

(** A state the effect leaves as it is. *)
Definition settled (p : Props) (w : World) : Prop := exec (reconcile p) w = w.

(** The active index of a configuration. *)
Definition index (c : Config) : Z := activeIndex (self (world c)).

End Runs.

(* ================================================================== *)
(** * More sample inputs *)
(* ================================================================== *)

Module MoreSamples.
Import Js Normalizer Tabs Samples.

(** A pane as the JSX transform builds it: the key is among the props
    too. *)
Definition keyed_children : list JsVal :=
  [ pane_node (JNum 7)
      [("key", JNum 7); ("tab", JStr "Seven"); ("close-icon", JFun "() => x");
       ("data-test", JStr "t"); ("node", JStr "mine")] ].

Definition keyed_parsed : list Obj :=
  match parseTabList is_vnode vue_camelize decimal keyed_children with
  | inr tabs => tabs
  | inl _ => []
  end.

Definition keyed_tab : Obj := default ∅ (keyed_parsed !! 0%nat).




(** No handlers, no type. *)
Definition silent : Props :=
  mkProps None None None JUndefined "bottom" None true false false false
          [pane "a"; pane "b"].

(** An editable card whose parent listens to nothing. *)
Definition unhandled : Props :=
  mkProps None None None JUndefined "top" (Some "editable-card") true false false false
          [pane "a"].

(** A default key no pane carries. *)
Definition stale_default : Props :=
  mkProps None None (Some "gone") JUndefined "top" None false true true true
          [pane "a"; pane "b"].

End MoreSamples.

(* ================================================================== *)
(** * Properties of the normalizer *)
(* ================================================================== *)

Module NormalizerFacts.
Import Js Normalizer.



Lemma attr_flag_spec x :
  attr_flag x = if strict_eq_str x "" then JBool true else x.
Proof. unfold attr_flag, js_or. by destruct (strict_eq_str x ""). Qed.

Lemma strict_eq_str_empty x : strict_eq_str x "" = true ↔ x = JStr "".
Proof.
  destruct x; simpl; try (split; [discriminate | intros H; discriminate H]).
  rewrite String.eqb_eq. split; [by intros -> | by intros [= ->]].
Qed.

Section Facts.

Variable isValidElement : JsVal → bool.
Variable camelize : string → string.
Variable Number_toString : Z → string.

Abbreviation parse_node := (Normalizer.parse_node isValidElement camelize Number_toString).
Abbreviation parseTabList := (Normalizer.parseTabList isValidElement camelize Number_toString).

(** ** One node *)


(** What a successfully built record holds. *)
Lemma parse_node_some node o :
  parse_node node = inr (Some o) →
  isValidElement node = true
  ∧ o !! "node" = Some node
  ∧ (∀ a, a ∈ flag_attrs →
       o !! a = Some (attr_flag (field (declared_props camelize node) a)))
  ∧ (get_prop node "key" = inr JUndefined →
     declared_props camelize node !! "key" = None →
     o !! "key" = Some JUndefined).
Proof.
  unfold Normalizer.parse_node, declared_props.
  destruct (isValidElement node); [| discriminate].
  destruct (get_prop node "props") as [e | rawProps]; [discriminate |].
  destruct (get_prop node "children") as [e | rawChildren]; [discriminate |].
  destruct (get_prop node "key") as [e | nodeKey]; [discriminate |].
  cbn [mbind result_bind].
  destruct (get_prop (js_or rawChildren (JObj [])) "tab") as [e | slotsTab];
    [discriminate |].
  destruct (get_prop (js_or rawChildren (JObj [])) "closeIcon") as [e | closeIcon];
    [discriminate |].
  cbn [mbind result_bind mret result_ret].
  intros [= <-]. unfold assign, spread.
  split; [reflexivity |]. split; [| split].
  - by simplify_map_eq.
  - intros a Ha. unfold flag_attrs in Ha.
    repeat (apply elem_of_cons in Ha as [-> | Ha]; [by simplify_map_eq |]).
    by apply elem_of_nil in Ha.
  - intros [= ->] Hnone. cbn [is_undefined negb].
    rewrite !lookup_insert_ne by done.
    rewrite lookup_union_r by done. by simplify_map_eq.
Qed.


(** ** The list *)

Lemma parseTabList_nil : parseTabList [] = inr [].
Proof. reflexivity. Qed.

Lemma parseTabList_cons node children :
  parseTabList (node :: children) =
  match parse_node node with
  | inl e => inl e
  | inr r =>
      match parseTabList children with
      | inl e => inl e
      | inr tabs => inr (match r with Some o => o :: tabs | None => tabs end)
      end
  end.
Proof.
  unfold Normalizer.parseTabList. cbn [mapM mbind result_bind].
  destruct (Normalizer.parse_node _ _ _ node) as [e | r]; [reflexivity |].
  destruct (mapM _ children) as [e | rs]; [reflexivity |].
  cbn. by destruct r.
Qed.

(** Every record of the result was built from an element of the input. *)
Lemma parseTabList_elem children : ∀ tabs t,
  parseTabList children = inr tabs → t ∈ tabs →
  ∃ node, node ∈ children ∧ parse_node node = inr (Some t).
Proof.
  induction children as [| node children IH]; intros tabs t.
  - rewrite parseTabList_nil. intros [= <-] Ht. by apply elem_of_nil in Ht.
  - rewrite parseTabList_cons.
    destruct (parse_node node) as [e | r] eqn:Hnode; [discriminate |].
    destruct (parseTabList children) as [e | ts] eqn:Hrest; [discriminate |].
    intros [= <-] Ht. destruct r as [o |].
    + apply elem_of_cons in Ht as [-> | Ht].
      * exists node. split; [left | done].
      * destruct (IH ts t eq_refl Ht) as (n & Hn & Hp). exists n. split; [by right | done].
    + destruct (IH ts t eq_refl Ht) as (n & Hn & Hp). exists n. split; [by right | done].
Qed.


(** ** The renaming loop *)

Lemma camelize_fold_keep a v es : ∀ m,
  camelize a = a → m !! a = Some v →
  (∀ kv, kv ∈ es → camelize kv.1 ≠ a) →
  fold_left (camelize_step camelize) es m !! a = Some v.
Proof.
  induction es as [| [k' v'] es IH]; intros m Ha Hm Hes; [done |].
  cbn [fold_left]. apply IH; [done | | intros kv Hkv; apply Hes; by right].
  assert (camelize k' ≠ a) as Hk by (apply (Hes (k', v')); left).
  unfold camelize_step, assign. cbn [fst snd].
  rewrite lookup_insert_ne by done.
  rewrite lookup_delete_ne; [done |]. intros ->. by apply Hk.
Qed.

(** The last declaration that renames to [a] decides the prop [a]. *)
Lemma camelize_props_last a es1 k v es2 :
  camelize k = a → camelize a = a →
  (∀ kv, kv ∈ es2 → camelize kv.1 ≠ a) →
  camelize_props camelize (JObj (es1 ++ (k, v) :: es2)) !! a = Some v.
Proof.
  intros Hk Ha Hes2. unfold camelize_props. cbn [own_entries].
  rewrite fold_left_app. cbn [fold_left].
  apply camelize_fold_keep; [done | | done].
  unfold camelize_step, assign. cbn [fst snd]. rewrite Hk. apply lookup_insert_eq.
Qed.

(** ** Specification of the normalizer *)

(** C4. In every record [parseTabList] returns, each of the attributes
    [disabled], [forceRender], [closable], [animated], [active] and
    [destroyInactiveTabPane] is [true] when its declared value is the
    empty string, and is the declared value itself otherwise. The
    declared value is the element's prop after the renaming loop; it is
    the value of the last raw prop whose name camelizes to the
    attribute. *)
Theorem parseTabList_flag_coercion children tabs t a :
  parseTabList children = inr tabs → t ∈ tabs → a ∈ flag_attrs →
  let node := field t "node" in
  let declared := field (declared_props camelize node) a in
  (declared = JStr "" → field t a = JBool true)
  ∧ (declared ≠ JStr "" → field t a = declared)
  ∧ (∀ es1 k v es2,
       get_prop node "props" = inr (JObj (es1 ++ (k, v) :: es2)) →
       camelize k = a → camelize a = a →
       (∀ kv, kv ∈ es2 → camelize kv.1 ≠ a) →
       declared = v).
Proof.
  intros Htabs Ht Ha node declared.
  destruct (parseTabList_elem children tabs t Htabs Ht) as (n & _ & Hn).
  apply parse_node_some in Hn as (_ & Hnode & Hflags & _).
  assert (node = n) as Hn by (unfold node, field; by rewrite Hnode).
  assert (field t a = attr_flag declared) as Hfield.
  { unfold field at 1. rewrite (Hflags a Ha). unfold declared. by rewrite Hn. }
  rewrite Hfield, attr_flag_spec. split; [| split].
  - intros ->. reflexivity.
  - intros Hne. destruct (strict_eq_str declared "") eqn:E; [| done].
    by apply strict_eq_str_empty in E.
  - intros es1 k v es2 Hprops Hk Hcam Hes2. unfold declared, declared_props, field.
    rewrite Hprops. cbn [js_or truthy].
    by rewrite (camelize_props_last a es1 k v es2 Hk Hcam Hes2).
Qed.



End Facts.

(** ** On the sample children *)


Lemma parsed_ok :
  Normalizer.parseTabList is_vnode vue_camelize decimal Samples.children = inr Samples.parsed.
Proof. vm_compute. reflexivity. Qed.

Lemma parseTabList_flag_coercion_witness :
  field Samples.first_tab "forceRender" = JBool true
  ∧ field Samples.second_tab "closable" = JBool true
  ∧ field Samples.first_tab "disabled" = JBool false.
Proof.
  assert (Samples.first_tab ∈ Samples.parsed) as H1 by (vm_compute; left).
  assert (Samples.second_tab ∈ Samples.parsed) as H2 by (vm_compute; right; left).
  split; [| split].
  - apply (parseTabList_flag_coercion is_vnode vue_camelize decimal Samples.children
             Samples.parsed Samples.first_tab "forceRender" parsed_ok H1).
    + vm_compute. do 1 right. left.
    + vm_compute. reflexivity.
  - apply (parseTabList_flag_coercion is_vnode vue_camelize decimal Samples.children
             Samples.parsed Samples.second_tab "closable" parsed_ok H2).
    + vm_compute. do 2 right. left.
    + vm_compute. reflexivity.
  - assert (field (declared_props vue_camelize (field Samples.first_tab "node")) "disabled"
            = JBool false) as Hd by (vm_compute; reflexivity).
    rewrite <- Hd.
    apply (parseTabList_flag_coercion is_vnode vue_camelize decimal Samples.children
             Samples.parsed Samples.first_tab "disabled" parsed_ok H1).
    + vm_compute. left.
    + rewrite Hd. discriminate.
Defined.




End NormalizerFacts.

(* ================================================================== *)
(** * Properties of the component *)
(* ================================================================== *)

Module TabsFacts.
Import Js Tabs Properties.

(** ** Running operations *)

Lemma exec_bind {A B} (m : M A) (f : A → M B) w :
  exec (m ≫= f) w = exec (f (m w).1.1) (exec m w).
Proof.
  unfold exec, mbind, M_bind.
  destruct (m w) as [[x w1] l1]. cbn. by destruct (f x w1) as [[y w2] l2].
Qed.

Lemma log_bind {A B} (m : M A) (f : A → M B) w :
  log (m ≫= f) w = (log m w ++ log (f (m w).1.1) (exec m w))%list.
Proof.
  unfold log, exec, mbind, M_bind.
  destruct (m w) as [[x w1] l1]. cbn. by destruct (f x w1) as [[y w2] l2].
Qed.

(** ** [findIndex] *)

Lemma findIndex_from_none {A} (f : A → bool) l : ∀ i,
  0 ≤ i → findIndex_from f l i = -1 ↔ Forall (λ x, f x = false) l.
Proof.
  induction l as [| x l IH]; intros i Hi; cbn [findIndex_from].
  - split; [constructor | done].
  - destruct (f x) eqn:Hx.
    + split; [lia |]. intros H. apply Forall_cons in H as [H _]. congruence.
    + rewrite IH by lia. split; [by constructor |].
      intros H. by apply Forall_cons in H as [_ H].
Qed.

Lemma findIndex_from_some {A} (f : A → bool) l : ∀ i,
  0 ≤ i → findIndex_from f l i ≠ -1 →
  ∃ x, i ≤ findIndex_from f l i
       ∧ l !! Z.to_nat (findIndex_from f l i - i) = Some x ∧ f x = true.
Proof.
  induction l as [| x l IH]; intros i Hi; cbn [findIndex_from]; [done |].
  destruct (f x) eqn:Hx.
  - intros _. exists x. replace (i - i) with 0 by lia. by split; [lia |].
  - intros Hne. destruct (IH (i + 1) ltac:(lia) Hne) as (y & Hle & Hy & Hfy).
    exists y. split; [lia |]. split; [| done].
    replace (Z.to_nat (findIndex_from f l (i + 1) - i))
      with (S (Z.to_nat (findIndex_from f l (i + 1) - (i + 1)))) by lia.
    done.
Qed.

(** The search fails exactly when no tab carries the key. *)
Lemma findIndex_missing k l :
  findIndex (key_is k) l = -1 ↔ ∀ tab, tab ∈ l → key tab ≠ k.
Proof.
  unfold findIndex. rewrite findIndex_from_none by lia. rewrite Forall_forall.
  unfold key_is. split; intros H tab Ht.
  - specialize (H tab Ht). by apply bool_decide_eq_false in H.
  - apply bool_decide_eq_false. by apply H.
Qed.

Lemma findIndex_found k l :
  findIndex (key_is k) l ≠ -1 → ∃ tab, tab ∈ l ∧ key tab = k.
Proof.
  intros H. destruct (findIndex_from_some (key_is k) l 0 ltac:(lia) H)
    as (tab & _ & Hl & Hk).
  exists tab. split; [by eapply list_elem_of_lookup_2 |].
  unfold key_is in Hk. by apply bool_decide_eq_true in Hk.
Qed.

(** ** Indexing *)

Lemma key_at_head l : key_at l 0 = head l ≫= key.
Proof. unfold key_at. cbn. by destruct l. Qed.

Lemma key_at_nil i : key_at [] i = None.
Proof. unfold key_at. by destruct (i <? 0). Qed.

Lemma clamp_range i n : (0 < n)%nat → 0 ≤ clamp i n ≤ Z.of_nat n - 1.
Proof. unfold clamp. lia. Qed.

Lemma clamp_cases i n :
  (0 < n)%nat →
  clamp i n = if i <? 0 then 0 else if Z.of_nat n - 1 <? i then Z.of_nat n - 1 else i.
Proof.
  intros Hn. unfold clamp.
  destruct (Z.ltb_spec i 0); [lia |].
  destruct (Z.ltb_spec (Z.of_nat n - 1) i); lia.
Qed.

Lemma key_at_in_range l i :
  0 ≤ i ≤ Z.of_nat (length l) - 1 →
  ∃ tab, l !! Z.to_nat i = Some tab ∧ tab ∈ l ∧ key_at l i = key tab.
Proof.
  intros Hi. destruct (lookup_lt_is_Some_2 l (Z.to_nat i) ltac:(lia)) as [tab Htab].
  exists tab. split; [done |]. split; [by eapply list_elem_of_lookup_2 |].
  unfold key_at. destruct (Z.ltb_spec i 0); [lia |]. by rewrite Htab.
Qed.

(** ** The reconciler, case by case *)

Lemma reconcile_missing p w :
  findIndex (key_is (mergedActiveKey p (self w))) (tabs p) = -1 →
  let c := clamp (activeIndex (self w)) (length (tabs p)) in
  reconcile p w =
    (tt,
     mkWorld (uuid w)
       (mkInstance (mobile (self w)) (key_at (tabs p) c) c (innerId (self w))),
     [SetMergedActiveKey (key_at (tabs p) c); SetActiveIndex c]).
Proof.
  intros H. unfold reconcile, mbind, M_bind, read. cbn -[Z.max Z.min]. rewrite H.
  reflexivity.
Qed.

Lemma reconcile_found p w :
  findIndex (key_is (mergedActiveKey p (self w))) (tabs p) ≠ -1 →
  reconcile p w =
    (tt,
     mkWorld (uuid w)
       (mkInstance (mobile (self w)) (innerActiveKey (self w))
          (findIndex (key_is (mergedActiveKey p (self w))) (tabs p))
          (innerId (self w))),
     [SetActiveIndex (findIndex (key_is (mergedActiveKey p (self w))) (tabs p))]).
Proof.
  intros H. unfold reconcile, mbind, M_bind, read. cbn -[Z.max Z.min].
  destruct (Z.eqb_spec (findIndex (key_is (mergedActiveKey p (self w))) (tabs p)) (-1));
    [done | reflexivity].
Qed.

(** Under external control the merged key is the prop, whatever the
    state. *)
Lemma merged_controlled p i k :
  activeKey p = Some k → mergedActiveKey p i = Some k.
Proof. unfold mergedActiveKey. by intros ->. Qed.

Lemma merged_uncontrolled p i :
  activeKey p = None → mergedActiveKey p i = innerActiveKey i.
Proof. unfold mergedActiveKey. by intros ->. Qed.

(** Without external control, one run of the effect leaves a valid key. *)
Lemma reconcile_valid p w :
  activeKey p = None → key_valid (mkConfig p (exec (reconcile p) w)).
Proof.
  intros Hp. unfold key_valid, active. cbn [props world].
  rewrite (merged_uncontrolled _ _ Hp).
  destruct (Z.eq_dec (findIndex (key_is (mergedActiveKey p (self w))) (tabs p)) (-1))
    as [Hmiss | Hfound].
  - unfold exec. rewrite (reconcile_missing p w Hmiss). cbn.
    destruct (tabs p) as [| tab l] eqn:Hl.
    + right. split; [done |]. apply key_at_nil.
    + left. destruct (key_at_in_range (tab :: l)
        (clamp (activeIndex (self w)) (length (tab :: l))))
        as (t & _ & Hin & Hk).
      { apply clamp_range. cbn. lia. }
      exists t. by rewrite Hk.
  - unfold exec. rewrite (reconcile_found p w Hfound). cbn.
    left. rewrite <- (merged_uncontrolled p (self w) Hp).
    by apply findIndex_found.
Qed.

Lemma rerun_last n p w :
  rerun (S n) p w = exec (reconcile p) (rerun n p w).
Proof.
  revert w. induction n as [| n IH]; intros w; [done |].
  change (rerun (S (S n)) p w) with (rerun (S n) p (exec (reconcile p) w)).
  by rewrite IH.
Qed.

(** What mounting leaves of the selection is what the effect left. *)
Lemma mount_selection env p w :
  innerActiveKey (self (exec (mount env p) w))
  = innerActiveKey (self (exec (reconcile p) (mkWorld (uuid w) (setup_instance p)))).
Proof.
  unfold mount. rewrite !exec_bind.
  set (w1 := exec (reconcile p) _).
  unfold onMounted_mobile, onMounted_id.
  destruct (id_falsy (id p)); reflexivity.
Qed.

Lemma key_valid_selection p w1 w2 :
  activeKey p = None →
  innerActiveKey (self w1) = innerActiveKey (self w2) →
  key_valid (mkConfig p w1) → key_valid (mkConfig p w2).
Proof.
  intros Hp Heq. unfold key_valid, active. cbn [props world].
  by rewrite !(merged_uncontrolled _ _ Hp), Heq.
Qed.

(** ** Specification of the active key *)

(** C1. When no tab carries the current active key, the effect clamps the
    previous active index into [[0, length-1]], hands the key of the tab
    at the clamped index to [setMergedActiveKey] and stores the clamped
    index; on an empty list the key handed over is [undefined]. Without
    external control that key is the merged active key afterwards. *)
Theorem reconcile_clamps p w :
  (∀ tab, tab ∈ tabs p → key tab ≠ mergedActiveKey p (self w)) →
  let n := length (tabs p) in
  let c := clamp (activeIndex (self w)) n in
  let w' := exec (reconcile p) w in
  log (reconcile p) w = [SetMergedActiveKey (key_at (tabs p) c); SetActiveIndex c]
  ∧ innerActiveKey (self w') = key_at (tabs p) c
  ∧ activeIndex (self w') = c
  ∧ (activeKey p = None → mergedActiveKey p (self w') = key_at (tabs p) c)
  ∧ (tabs p = [] → key_at (tabs p) c = None)
  ∧ (tabs p ≠ [] →
       0 ≤ c ≤ Z.of_nat n - 1
       ∧ c = (if activeIndex (self w) <? 0 then 0
              else if Z.of_nat n - 1 <? activeIndex (self w) then Z.of_nat n - 1
              else activeIndex (self w))
       ∧ ∃ tab, tabs p !! Z.to_nat c = Some tab ∧ key_at (tabs p) c = key tab).
Proof.
  intros Hmiss n c w'. apply findIndex_missing in Hmiss.
  pose proof (reconcile_missing p w Hmiss) as Hrun. fold n c in Hrun.
  unfold w', exec, log. rewrite Hrun. cbn [fst snd self innerActiveKey activeIndex].
  repeat split; try done.
  - intros Hp. by rewrite (merged_uncontrolled _ _ Hp).
  - intros ->. apply key_at_nil.
  - apply clamp_range. unfold n. destruct (tabs p); [done | cbn; lia].
  - apply clamp_range. unfold n. destruct (tabs p); [done | cbn; lia].
  - apply clamp_cases. unfold n. destruct (tabs p); [done | cbn; lia].
  - destruct (key_at_in_range (tabs p) c) as (tab & Htab & _ & Hk).
    { apply clamp_range. destruct (tabs p); [done | cbn; lia]. }
    eauto.
Qed.

Lemma reconcile_clamps_witness :
  log (reconcile (with_tabs [Samples.pane "a"; Samples.pane "b"] Samples.plain))
      Samples.orphaned
  = [SetMergedActiveKey (Some "b"); SetActiveIndex 1].
Proof.
  apply (reconcile_clamps (with_tabs [Samples.pane "a"; Samples.pane "b"] Samples.plain)
           Samples.orphaned).
  apply findIndex_missing. vm_compute. reflexivity.
Defined.

(** C3, as the code has it. In every reachable state: when the
    [activeKey] prop is not supplied, the merged active key is the key of
    a tab of the current list, or the list is empty and the key unset;
    when the prop is supplied, the merged active key is the prop, whether
    or not a tab carries it. *)
Theorem reachable_selection c :
  reachable c →
  (activeKey (props c) = None → key_valid c)
  ∧ (∀ k, activeKey (props c) = Some k → active c = Some k).
Proof.
  intros Hreach. split; [| intros k Hk; by apply merged_controlled].
  destruct Hreach as [env p w | c c' _ Hstep].
  - cbn [props]. intros Hp.
    apply (key_valid_selection p
             (exec (reconcile p) (mkWorld (uuid w) (setup_instance p)))); [done | |].
    + symmetry. apply mount_selection.
    + by apply reconcile_valid.
  - destruct Hstep as [c l n | c k n | c k e n]; unfold flush; cbn [props world];
      rewrite rerun_last; intros Hp; by apply reconcile_valid.
Qed.

Lemma reachable_selection_witness :
  key_valid Samples.mounted_plain ∧ active Samples.after_removal = Some "x".
Proof.
  split.
  - apply (reachable_selection Samples.mounted_plain).
    + exact (reach_mount Samples.browser Samples.plain Samples.fresh).
    + reflexivity.
  - apply (reachable_selection Samples.after_removal).
    + apply (reach_step Samples.mounted_controlled).
      * exact (reach_mount Samples.browser Samples.controlled Samples.fresh).
      * exact (step_tabs Samples.mounted_controlled
                 [Samples.pane "a"; Samples.pane "b"] 0).
    + reflexivity.
Defined.

(** C3, as stated, fails: under external control, removing the selected
    pane leaves a reachable state whose merged active key is carried by
    no tab of the list and is the key at no index of it. *)
Lemma removal_under_control_counterexample :
  reachable Samples.mounted_controlled
  ∧ step Samples.mounted_controlled Samples.after_removal
  ∧ tabs (props Samples.after_removal) = [Samples.pane "a"; Samples.pane "b"]
  ∧ active Samples.after_removal = Some "x"
  ∧ ¬ key_valid Samples.after_removal
  ∧ ¬ key_derivable Samples.after_removal.
Proof.
  assert (tabs (props Samples.after_removal) = [Samples.pane "a"; Samples.pane "b"])
    as Htabs by reflexivity.
  assert (active Samples.after_removal = Some "x") as Hact by reflexivity.
  split; [exact (reach_mount Samples.browser Samples.controlled Samples.fresh) |].
  split; [exact (step_tabs Samples.mounted_controlled
                   [Samples.pane "a"; Samples.pane "b"] 0) |].
  split; [done |]. split; [done |]. split.
  - unfold key_valid. rewrite Htabs, Hact. intros [(tab & Hin & Hk) | [? _]]; [| done].
    apply elem_of_cons in Hin as [-> | Hin]; [done |].
    apply elem_of_cons in Hin as [-> | Hin]; [done |].
    by apply elem_of_nil in Hin.
  - unfold key_derivable. rewrite Htabs, Hact. intros [i Hi].
    unfold key_at in Hi. destruct (i <? 0); [done |].
    by destruct (Z.to_nat i) as [| [| [| j]]].
Qed.

(** C7. The merged active key is the [activeKey] prop when supplied, and
    the inner state otherwise; the inner state starts from
    [defaultActiveKey], and from the first tab's key when that is unset. *)
Theorem mergedActiveKey_precedence p :
  (∀ i, mergedActiveKey p i =
        match activeKey p with Some k => Some k | None => innerActiveKey i end)
  ∧ innerActiveKey (setup_instance p) =
      match defaultActiveKey p with Some d => Some d | None => head (tabs p) ≫= key end
  ∧ mergedActiveKey p (setup_instance p) =
      match activeKey p, defaultActiveKey p with
      | Some k, _ => Some k
      | None, Some d => Some d
      | None, None => head (tabs p) ≫= key
      end.
Proof.
  split; [done |]. unfold mergedActiveKey, setup_instance. cbn [innerActiveKey].
  unfold useMergedState_value, useMergedState_init. rewrite key_at_head.
  split; [done |]. by destruct (activeKey p), (defaultActiveKey p).
Qed.

(** ** Specification of the presentation *)

Lemma copy_of_lookup es k : copy_of (JObj es) !! k = assoc k es.
Proof.
  unfold copy_of. cbn [own_entries].
  induction es as [| [k' v] es IH]; [done |]. cbn [list_to_map foldr assoc].
  cbn [uncurry]. destruct (String.eqb_spec k' k) as [-> | Hne].
  - apply lookup_insert_eq.
  - by rewrite lookup_insert_ne.
Qed.

(** C2. [animated === false] gives both flags off; [animated === true]
    gives both on; an object is merged over the defaults
    [{inkBar: true, tabPane: false}], its own properties overriding
    them; any other value leaves the defaults. *)
Theorem mergedAnimated_cases p :
  match animated p with
  | JBool false =>
      mergedAnimated p = {[ "inkBar" := JBool false; "tabPane" := JBool false ]}
  | JBool true =>
      mergedAnimated p = {[ "inkBar" := JBool true; "tabPane" := JBool true ]}
  | JObj es =>
      ∀ k, mergedAnimated p !! k =
           match assoc k es with
           | Some v => Some v
           | None => animated_defaults !! k
           end
  | _ => mergedAnimated p = animated_defaults
  end.
Proof.
  unfold mergedAnimated.
  destruct (animated p) as [| | [|] | | | | es |]; cbn -[copy_of];
    try (vm_compute; reflexivity).
  intros k. unfold spread. rewrite lookup_union, copy_of_lookup.
  destruct (assoc k es); [| by rewrite (left_id None _)].
  unfold assign. by destruct (<["tabPane":=JBool false]> (<["inkBar":=JBool true]> ∅) !! k).
Qed.

(** C5. On a mobile viewport a position other than left and right
    becomes top; otherwise the declared position stands. *)
Theorem mergedTabPosition_cases p i :
  (mobile i = true → tabPosition p ≠ "left" → tabPosition p ≠ "right" →
   mergedTabPosition p i = "top")
  ∧ (mobile i = false ∨ tabPosition p = "left" ∨ tabPosition p = "right" →
     mergedTabPosition p i = tabPosition p).
Proof.
  unfold mergedTabPosition, includes. split.
  - intros -> Hl Hr. rewrite bool_decide_eq_false_2; [done |].
    intros H. apply elem_of_cons in H as [H | H]; [done |].
    apply elem_of_cons in H as [H | H]; [done |]. by apply elem_of_nil in H.
  - intros [-> | H]; [done |]. rewrite bool_decide_eq_true_2.
    + by rewrite andb_false_r.
    + destruct H as [-> | ->]; [left | right; left].
Qed.

Lemma mergedTabPosition_cases_witness :
  mergedTabPosition (Samples.with_tabPosition "bottom" Samples.plain)
    (mkInstance true None 0 None) = "top"
  ∧ mergedTabPosition (Samples.with_tabPosition "left" Samples.plain)
      (mkInstance true None 0 None) = "left".
Proof.
  split.
  - apply (mergedTabPosition_cases (Samples.with_tabPosition "bottom" Samples.plain)
             (mkInstance true None 0 None)); [reflexivity | discriminate | discriminate].
  - apply (mergedTabPosition_cases (Samples.with_tabPosition "left" Samples.plain)
             (mkInstance true None 0 None)).
    right. left. reflexivity.
Defined.

Lemma mergedAnimated_cases_witness :
  mergedAnimated (Samples.with_animated (JBool false) Samples.plain)
  = {[ "inkBar" := JBool false; "tabPane" := JBool false ]}
  ∧ mergedAnimated (Samples.with_animated (JObj [("tabPane", JBool true)]) Samples.plain)
    !! "tabPane" = Some (JBool true)
  ∧ mergedAnimated (Samples.with_animated (JObj [("tabPane", JBool true)]) Samples.plain)
    !! "inkBar" = Some (JBool true).
Proof.
  split; [| split].
  - exact (mergedAnimated_cases (Samples.with_animated (JBool false) Samples.plain)).
  - exact (mergedAnimated_cases
             (Samples.with_animated (JObj [("tabPane", JBool true)]) Samples.plain)
             "tabPane").
  - exact (mergedAnimated_cases
             (Samples.with_animated (JObj [("tabPane", JBool true)]) Samples.plain)
             "inkBar").
Defined.

Lemma mergedActiveKey_precedence_witness :
  mergedActiveKey Samples.controlled (setup_instance Samples.controlled) = Some "x"
  ∧ mergedActiveKey Samples.plain (setup_instance Samples.plain) = Some "a".
Proof.
  split.
  - apply (mergedActiveKey_precedence Samples.controlled).
  - apply (mergedActiveKey_precedence Samples.plain).
Defined.

(** ** Specification of the events *)

(** Whatever handlers are supplied, a click writes the key between the
    two notifications. *)
Lemma onInternalTabClick_log p k e w :
  log (onInternalTabClick p k e) w =
    ((if onTabClick p then [CallOnTabClick k e] else [])
     ++ [SetMergedActiveKey (Some k)]
     ++ (if onChange p then [CallOnChange k] else []))%list.
Proof.
  unfold onInternalTabClick, log, mbind, M_bind.
  by destruct (onTabClick p), (onChange p).
Qed.

Lemma onInternalTabClick_selection p k e w :
  innerActiveKey (self (exec (onInternalTabClick p k e) w)) = Some k.
Proof.
  unfold onInternalTabClick, exec, mbind, M_bind.
  by destruct (onTabClick p), (onChange p).
Qed.

(** C6. A click on the tab with key [k], with both handlers supplied:
    the click handler is called once with [k], then the active key is
    written, then the change handler is called once with [k]; nothing
    else happens. *)
Theorem onInternalTabClick_order p k e w :
  onTabClick p = true → onChange p = true →
  log (onInternalTabClick p k e) w =
    [CallOnTabClick k e; SetMergedActiveKey (Some k); CallOnChange k]
  ∧ innerActiveKey (self (exec (onInternalTabClick p k e) w)) = Some k
  ∧ (activeKey p = None →
     mergedActiveKey p (self (exec (onInternalTabClick p k e) w)) = Some k).
Proof.
  intros Hclick Hchange. rewrite onInternalTabClick_log, Hclick, Hchange.
  split; [done |]. split; [apply onInternalTabClick_selection |].
  intros Hp. rewrite (merged_uncontrolled _ _ Hp). apply onInternalTabClick_selection.
Qed.

Lemma onInternalTabClick_order_witness :
  log (onInternalTabClick Samples.plain "b" (MouseEvent 7)) Samples.fresh =
    [CallOnTabClick "b" (MouseEvent 7); SetMergedActiveKey (Some "b"); CallOnChange "b"].
Proof.
  apply (onInternalTabClick_order Samples.plain "b" (MouseEvent 7) Samples.fresh);
    reflexivity.
Defined.

(** C8. For the editable-card type with [onEdit] supplied, an edit
    interaction calls [onEdit] once and changes nothing else: with the
    event and ['add'] for an addition, with the key and ['remove'] for a
    removal. *)
Theorem editable_onEdit_calls p info w :
  type p = Some "editable-card" → onEdit p = true →
  ∃ cfg, editable p = Some cfg
    ∧ editable_onEdit cfg add info w
      = (tt, w, [CallOnEdit (EditEvent (info_event info)) add])
    ∧ editable_onEdit cfg remove info w
      = (tt, w, [CallOnEdit (EditKey (info_key info)) remove]).
Proof.
  intros Htype Hedit. unfold editable. rewrite bool_decide_eq_true_2 by done.
  eexists. split; [reflexivity |]. cbn. by rewrite Hedit.
Qed.

Lemma editable_onEdit_calls_witness :
  ∃ cfg, editable Samples.plain = Some cfg
    ∧ log (editable_onEdit cfg remove (mkEditInfo (Some "x") (MouseEvent 3))) Samples.fresh
      = [CallOnEdit (EditKey (Some "x")) remove].
Proof.
  destruct (editable_onEdit_calls Samples.plain (mkEditInfo (Some "x") (MouseEvent 3))
              Samples.fresh eq_refl eq_refl) as (cfg & Hcfg & _ & Hrem).
  exists cfg. split; [exact Hcfg |]. unfold log. rewrite Hrem. reflexivity.
Defined.

(** ** Specification of the accessibility id *)

Lemma onMounted_id_run env p w :
  onMounted_id env p w =
    if id_falsy (id p)
    then (tt,
          mkWorld (uuid w + 1)
            (mkInstance (mobile (self w)) (innerActiveKey (self w))
               (activeIndex (self w)) (Some (fresh_id env (uuid w)))),
          [SetMergedId (fresh_id env (uuid w))])
    else (tt, w, []).
Proof. unfold onMounted_id. by destruct (id_falsy (id p)). Qed.

Lemma reconcile_uuid p w : uuid (exec (reconcile p) w) = uuid w.
Proof.
  destruct (Z.eq_dec (findIndex (key_is (mergedActiveKey p (self w))) (tabs p)) (-1))
    as [Hmiss | Hfound]; unfold exec.
  - by rewrite (reconcile_missing p w Hmiss).
  - by rewrite (reconcile_found p w Hfound).
Qed.

(** Mounting consumes the counter exactly as its id hook does. *)
Lemma mount_id env p w :
  ∃ w0, uuid w0 = uuid w
    ∧ exec (mount env p) w = exec (onMounted_id env p) w0
    ∧ log (mount env p) w
      = (log (reconcile p) (mkWorld (uuid w) (setup_instance p))
         ++ [SetMobile (isMobile env)] ++ log (onMounted_id env p) w0)%list.
Proof.
  exists (exec (onMounted_mobile env)
            (exec (reconcile p) (mkWorld (uuid w) (setup_instance p)))).
  split; [| split].
  - change (uuid (exec (reconcile p) (mkWorld (uuid w) (setup_instance p))) = uuid w).
    by rewrite reconcile_uuid.
  - unfold mount. by rewrite !exec_bind.
  - unfold mount. by rewrite !log_bind.
Qed.

Lemma reconcile_no_id p w : generated_ids (log (reconcile p) w) = [].
Proof.
  destruct (Z.eq_dec (findIndex (key_is (mergedActiveKey p (self w))) (tabs p)) (-1))
    as [Hmiss | Hfound]; unfold log.
  - by rewrite (reconcile_missing p w Hmiss).
  - by rewrite (reconcile_found p w Hfound).
Qed.

(** The ids one mount generates are those of its id hook. *)
Lemma mount_generated_ids env p w :
  ∃ w0, uuid w0 = uuid w
    ∧ generated_ids (log (mount env p) w) = generated_ids (log (onMounted_id env p) w0).
Proof.
  destruct (mount_id env p w) as (w0 & Hu & _ & Hlog). exists w0. split; [done |].
  rewrite Hlog. unfold generated_ids. rewrite !omap_app.
  fold (generated_ids (log (reconcile p) (mkWorld (uuid w) (setup_instance p)))).
  by rewrite reconcile_no_id.
Qed.

Lemma fresh_id_inj env u1 u2 :
  node_env_test env = false → fresh_id env u1 = fresh_id env u2 → u1 = u2.
Proof.
  unfold fresh_id. intros -> H. injection H as H.
  change (pretty u1 = pretty u2) in H. by apply (inj pretty) in H.
Qed.

Lemma id_falsy_true o : id_falsy o = true ↔ o = None ∨ o = Some "".
Proof.
  destruct o as [s |]; cbn; [| by split; [left |]].
  rewrite String.eqb_eq. split; [intros ->; by right | by intros [? | [= ->]]].
Qed.

Lemma id_falsy_false o : id_falsy o = false ↔ ∃ s, o = Some s ∧ s ≠ "".
Proof.
  destruct o as [s |]; cbn.
  - rewrite String.eqb_neq. split; [by eauto | by intros (? & [= <-] & ?)].
  - split; [done | by intros (? & ? & _)].
Qed.

(** C9, as the code has it. When the [id] prop is absent (or empty), a
    mount generates one id and advances the process-wide counter by
    exactly one: the id is ["rc-tabs-test"] when [NODE_ENV] is ['test'],
    and ["rc-tabs-"] followed by the counter otherwise, so that outside
    the test environment two mounts without an id, the second at a later
    counter value, receive distinct ids. When a non-empty [id] is
    supplied, nothing is generated and the counter stays. *)
Theorem id_generation env p w :
  (id p = None ∨ id p = Some "" →
     log (onMounted_id env p) w = [SetMergedId (fresh_id env (uuid w))]
     ∧ innerId (self (exec (onMounted_id env p) w)) = Some (fresh_id env (uuid w))
     ∧ uuid (exec (onMounted_id env p) w) = (uuid w + 1)%N
     ∧ generated_ids (log (mount env p) w) = [fresh_id env (uuid w)]
     ∧ uuid (exec (mount env p) w) = (uuid w + 1)%N)
  ∧ (∀ s, id p = Some s → s ≠ "" →
     log (onMounted_id env p) w = []
     ∧ exec (onMounted_id env p) w = w
     ∧ generated_ids (log (mount env p) w) = []
     ∧ uuid (exec (mount env p) w) = uuid w)
  ∧ (∀ p2 w2, node_env_test env = false → id p = None → id p2 = None →
     (uuid (exec (mount env p) w) ≤ uuid w2)%N →
     mergedId p (self (exec (mount env p) w)) = Some (fresh_id env (uuid w))
     ∧ mergedId p2 (self (exec (mount env p2) w2)) = Some (fresh_id env (uuid w2))
     ∧ fresh_id env (uuid w) ≠ fresh_id env (uuid w2)).
Proof.
  assert (∀ q v, id_falsy (id q) = true →
            uuid (exec (mount env q) v) = (uuid v + 1)%N
            ∧ innerId (self (exec (mount env q) v)) = Some (fresh_id env (uuid v)))
    as Hmount.
  { intros q v Hq. destruct (mount_id env q v) as (v0 & Hu & -> & _).
    unfold exec. rewrite onMounted_id_run, Hq. cbn. by rewrite Hu. }
  destruct (mount_generated_ids env p w) as (v0 & Hv0 & Hids).
  split; [| split].
  - intros Hid. apply id_falsy_true in Hid.
    rewrite Hids. unfold log, exec at 1 2. rewrite !onMounted_id_run, Hid. cbn.
    rewrite Hv0. repeat split. by apply Hmount.
  - intros s Hs Hne. assert (id_falsy (id p) = false) as Hid.
    { apply id_falsy_false. eauto. }
    rewrite Hids. unfold log, exec at 1. rewrite !onMounted_id_run, Hid. cbn.
    repeat split. destruct (mount_id env p w) as (w0 & Hu & -> & _).
    unfold exec. by rewrite onMounted_id_run, Hid.
  - intros p2 w2 Henv Hp Hp2 Hlater.
    assert (id_falsy (id p) = true) as Hid by (apply id_falsy_true; by left).
    assert (id_falsy (id p2) = true) as Hid2 by (apply id_falsy_true; by left).
    destruct (Hmount p w Hid) as [Hu Hi]. destruct (Hmount p2 w2 Hid2) as [_ Hi2].
    unfold mergedId. rewrite Hp, Hp2. cbn [useMergedState_value].
    split; [done |]. split; [done |].
    intros Heq. apply (fresh_id_inj env _ _ Henv) in Heq. lia.
Qed.

Lemma id_generation_witness :
  uuid (exec (mount Samples.browser Samples.plain) Samples.fresh) = 1%N
  ∧ uuid (exec (mount Samples.browser (Samples.with_id (Some "tabs") Samples.plain))
            Samples.fresh) = 0%N
  ∧ "rc-tabs-0" ≠ "rc-tabs-1".
Proof.
  split; [| split].
  - apply (id_generation Samples.browser Samples.plain Samples.fresh). by left.
  - apply (id_generation Samples.browser (Samples.with_id (Some "tabs") Samples.plain)
             Samples.fresh) with (s := "tabs"); [reflexivity | discriminate].
  - destruct (id_generation Samples.browser Samples.plain Samples.fresh)
      as (_ & _ & Hdistinct).
    apply (Hdistinct Samples.plain
             (exec (mount Samples.browser Samples.plain) Samples.fresh));
      reflexivity.
Defined.

(** C9, as stated, fails twice: in the test environment two components
    mounted one after the other without an id receive the same id; and
    an empty [id], though supplied, consumes the counter. *)
Lemma id_generation_counterexample :
  id Samples.plain = None
  ∧ generated_id Samples.test_env Samples.plain Samples.fresh = Some "rc-tabs-test"
  ∧ generated_id Samples.test_env Samples.plain
      (exec (mount Samples.test_env Samples.plain) Samples.fresh) = Some "rc-tabs-test"
  ∧ mergedId Samples.plain
      (self (exec (mount Samples.test_env Samples.plain) Samples.fresh))
    = Some "rc-tabs-test"
  ∧ mergedId Samples.plain
      (self (exec (mount Samples.test_env Samples.plain)
               (exec (mount Samples.test_env Samples.plain) Samples.fresh)))
    = Some "rc-tabs-test"
  ∧ uuid (exec (mount Samples.test_env Samples.plain)
            (exec (mount Samples.test_env Samples.plain) Samples.fresh)) = 2%N
  ∧ id (Samples.with_id (Some "") Samples.plain) = Some ""
  ∧ uuid (exec (mount Samples.browser (Samples.with_id (Some "") Samples.plain))
            Samples.fresh) = (uuid Samples.fresh + 1)%N.
Proof. repeat split. Qed.

End TabsFacts.

(* ================================================================== *)
(** * Further properties of the normalizer *)
(* ================================================================== *)

Module NormalizerMore.
Import Js Normalizer Views NormalizerFacts.

Section More.

Variable isValidElement : JsVal → bool.
Variable camelize : string → string.
Variable Number_toString : Z → string.

Abbreviation parse_node := (Normalizer.parse_node isValidElement camelize Number_toString).
Abbreviation parseTabList := (Normalizer.parseTabList isValidElement camelize Number_toString).

(** ** The renaming loop *)

Lemma camelize_fold_origin a v es : ∀ m,
  fold_left (camelize_step camelize) es m !! a = Some v →
  (m !! a = Some v ∧ a ∉ es.*1) ∨ ∃ k, (k, v) ∈ es ∧ camelize k = a.
Proof.
  induction es as [| [k w] es IH]; intros m; cbn [fold_left].
  - intros H. left. split; [done | apply not_elem_of_nil].
  - intros H. destruct (IH _ H) as [[Hstep Hnot] | (k' & Hin & Hk')].
    + unfold camelize_step, assign in Hstep. cbn [fst snd] in Hstep.
      destruct (decide (camelize k = a)) as [Heq | Hne].
      * rewrite Heq, lookup_insert_eq in Hstep. injection Hstep as ->.
        right. exists k. split; [left | done].
      * rewrite lookup_insert_ne in Hstep by done.
        destruct (decide (k = a)) as [-> | Hka].
        { by rewrite lookup_delete_eq in Hstep. }
        rewrite lookup_delete_ne in Hstep by done.
        left. split; [done |]. cbn [fmap list_fmap fst].
        intros Hin. apply elem_of_cons in Hin as [-> | Hin]; [done | by apply Hnot].
    + right. exists k'. split; [by right | done].
Qed.

(** X1. After the renaming loop every prop carries a camelized name:
    a prop [a] with value [v] comes from a declared prop with that
    value whose name camelizes to [a]. *)
Theorem camelize_props_origin raw a v :
  camelize_props camelize raw !! a = Some v →
  ∃ k, (k, v) ∈ own_entries raw ∧ camelize k = a.
Proof.
  unfold camelize_props, copy_of. intros H.
  apply camelize_fold_origin in H as [[Hm Hnot] | H]; [| done].
  exfalso. apply Hnot. apply elem_of_list_to_map_2 in Hm.
  apply list_elem_of_fmap. by exists (a, v).
Qed.

(** ** The record of one element *)

Lemma parse_node_record node o :
  parse_node node = inr (Some o) → o = record_of camelize Number_toString node.
Proof.
  unfold Normalizer.parse_node, record_of, slots_of, declared_props, read.
  destruct (isValidElement node); [| discriminate].
  destruct (get_prop node "props") as [e | rawProps]; [discriminate |].
  destruct (get_prop node "children") as [e | rawChildren]; [discriminate |].
  destruct (get_prop node "key") as [e | nodeKey]; [discriminate |].
  cbn [mbind result_bind].
  destruct (get_prop (js_or rawChildren (JObj [])) "tab") as [e | slotsTab];
    [discriminate |].
  destruct (get_prop (js_or rawChildren (JObj [])) "closeIcon") as [e | closeIcon];
    [discriminate |].
  cbn [mbind result_bind mret result_ret]. by intros [= <-].
Qed.

Lemma parseTabList_record children tabs t :
  parseTabList children = inr tabs → t ∈ tabs →
  ∃ node, node ∈ children ∧ isValidElement node = true
    ∧ t = record_of camelize Number_toString node ∧ field t "node" = node.
Proof.
  intros Htabs Ht.
  destruct (parseTabList_elem isValidElement camelize Number_toString children tabs t Htabs Ht) as (node & Hin & Hnode).
  exists node. split; [done |].
  pose proof (parse_node_some isValidElement camelize Number_toString node t Hnode) as (Hv & Hn & _).
  split; [done |]. split; [by apply parse_node_record |].
  unfold field. by rewrite Hn.
Qed.


(** X3. The label of a record is the [tab] prop unless that is
    [undefined], and then the [tab] slot; the close icon is the
    [closeIcon] slot whatever the props declare; the node is the
    element even if the props declare one. *)
Theorem parseTabList_slots children tabs t :
  parseTabList children = inr tabs → t ∈ tabs →
  let node := field t "node" in
  let props := declared_props camelize node in
  node ∈ children
  ∧ field t "tab" =
      (if is_undefined (field props "tab") then read (slots_of node) "tab"
       else field props "tab")
  ∧ field t "closeIcon" = read (slots_of node) "closeIcon".
Proof.
  intros Htabs Ht.
  destruct (parseTabList_record children tabs t Htabs Ht) as (node & Hin & _ & Ht' & Hn).
  rewrite Hn. cbn zeta. split; [done |].
  rewrite Ht'. unfold record_of, assign, field.
  split; by simplify_map_eq.
Qed.

(** X4. Every other prop passes into the record under its camelized
    name: a name the literal does not set, [key] apart, reads in the
    record as in the element's props. *)
Theorem parseTabList_passthrough children tabs t a :
  parseTabList children = inr tabs → t ∈ tabs →
  a ∉ reserved → a ≠ "key" →
  t !! a = declared_props camelize (field t "node") !! a.
Proof.
  intros Htabs Ht Ha Hkey.
  destruct (parseTabList_record children tabs t Htabs Ht) as (node & _ & _ & Ht' & ->).
  rewrite Ht' at 1. unfold record_of, assign, spread. unfold reserved in Ha.
  repeat (rewrite lookup_insert_ne;
          [| intros <-; apply Ha; repeat (first [left | right])]).
  rewrite lookup_union, lookup_insert_ne, lookup_empty by done.
  by destruct (declared_props camelize node !! a).
Qed.

(** ** The list *)

(** X5. Parsing a concatenation is parsing the parts: the first fault
    is the fault of the whole, and otherwise the records follow one
    another. *)
Theorem parseTabList_app l1 l2 :
  parseTabList (l1 ++ l2) =
  match parseTabList l1 with
  | inl e => inl e
  | inr t1 =>
      match parseTabList l2 with
      | inl e => inl e
      | inr t2 => inr (t1 ++ t2)%list
      end
  end.
Proof.
  induction l1 as [| node l1 IH].
  - cbn [app]. rewrite parseTabList_nil. by destruct (parseTabList l2).
  - cbn [app]. rewrite !parseTabList_cons, IH.
    destruct (parse_node node) as [e | r]; [done |].
    destruct (parseTabList l1) as [e | t1]; [done |].
    destruct (parseTabList l2) as [e | t2]; [done |]. by destruct r.
Qed.



End More.

(** ** On the sample children *)

Lemma keyed_parsed_ok :
  Normalizer.parseTabList is_vnode vue_camelize decimal MoreSamples.keyed_children
  = inr MoreSamples.keyed_parsed.
Proof. vm_compute. reflexivity. Qed.

Lemma keyed_tab_in : MoreSamples.keyed_tab ∈ MoreSamples.keyed_parsed.
Proof. vm_compute. left. Qed.

Lemma camelize_props_origin_witness :
  ∃ k, (k, JStr "") ∈ [("force-render", JStr ""); ("disabled", JBool false)]
       ∧ vue_camelize k = "forceRender".
Proof.
  apply (camelize_props_origin vue_camelize
           (JObj [("force-render", JStr ""); ("disabled", JBool false)])
           "forceRender" (JStr "")).
  vm_compute. reflexivity.
Defined.



Lemma parseTabList_slots_witness :
  field MoreSamples.keyed_tab "tab" = JStr "Seven"
  ∧ field MoreSamples.keyed_tab "closeIcon" = JUndefined.
Proof.
  destruct (parseTabList_slots is_vnode vue_camelize decimal MoreSamples.keyed_children
              MoreSamples.keyed_parsed MoreSamples.keyed_tab
              keyed_parsed_ok keyed_tab_in) as (_ & Htab & Hicon).
  split.
  - rewrite Htab. vm_compute. reflexivity.
  - rewrite Hicon. vm_compute. reflexivity.
Defined.

Lemma parseTabList_passthrough_witness :
  MoreSamples.keyed_tab !! "dataTest" = Some (JStr "t").
Proof.
  rewrite (parseTabList_passthrough is_vnode vue_camelize decimal MoreSamples.keyed_children
             MoreSamples.keyed_parsed MoreSamples.keyed_tab "dataTest"
             keyed_parsed_ok keyed_tab_in).
  - vm_compute. reflexivity.
  - vm_compute. intros H.
    repeat (apply elem_of_cons in H as [H | H]; [discriminate H |]).
    by apply elem_of_nil in H.
  - discriminate.
Defined.

End NormalizerMore.

(* ================================================================== *)
(** * Further properties of the component *)
(* ================================================================== *)

Module TabsMore.
Import Js Tabs Properties Runs TabsFacts.

(** ** The search, once more *)

Lemma findIndex_from_before {A} (f : A → bool) l : ∀ i,
  0 ≤ i → ∀ j y, i + Z.of_nat j < findIndex_from f l i →
  l !! j = Some y → f y = false.
Proof.
  induction l as [| x l IH]; intros i Hi j y; cbn [findIndex_from]; [done |].
  destruct (f x) eqn:Hx; [lia |].
  destruct j as [| j]; cbn.
  - by intros _ [= <-].
  - intros Hlt Hy. apply (IH (i + 1) ltac:(lia) j y); [lia | done].
Qed.

Lemma findIndex_from_bound {A} (f : A → bool) l : ∀ i,
  0 ≤ i → findIndex_from f l i ≠ -1 →
  i ≤ findIndex_from f l i < i + Z.of_nat (length l).
Proof.
  intros i Hi Hne.
  destruct (findIndex_from_some f l i Hi Hne) as (x & Hle & Hx & _).
  apply lookup_lt_Some in Hx. lia.
Qed.

(** A successful search yields the first tab carrying the key. *)
Lemma findIndex_first k l :
  findIndex (key_is k) l ≠ -1 →
  0 ≤ findIndex (key_is k) l < Z.of_nat (length l)
  ∧ key_at l (findIndex (key_is k) l) = k
  ∧ ∀ i, 0 ≤ i < findIndex (key_is k) l → key_at l i ≠ k.
Proof.
  intros Hne. unfold findIndex in *.
  pose proof (findIndex_from_bound (key_is k) l 0 ltac:(lia) Hne) as Hb.
  destruct (findIndex_from_some (key_is k) l 0 ltac:(lia) Hne) as (x & _ & Hx & Hk).
  split; [lia |]. split.
  - unfold key_at. destruct (Z.ltb_spec (findIndex_from (key_is k) l 0) 0); [lia |].
    rewrite Z.sub_0_r in Hx. rewrite Hx. cbn.
    unfold key_is in Hk. by apply bool_decide_eq_true in Hk.
  - intros i Hi. unfold key_at. destruct (Z.ltb_spec i 0); [lia |].
    destruct (lookup_lt_is_Some_2 l (Z.to_nat i) ltac:(lia)) as [y Hy].
    rewrite Hy. cbn.
    pose proof (findIndex_from_before (key_is k) l 0 ltac:(lia) (Z.to_nat i) y
                  ltac:(lia) Hy) as Hf.
    unfold key_is in Hf. by apply bool_decide_eq_false in Hf.
Qed.

Lemma findIndex_present k l tab :
  tab ∈ l → key tab = k → findIndex (key_is k) l ≠ -1.
Proof.
  intros Hin Hk Hmiss. by apply (proj1 (findIndex_missing k l) Hmiss tab).
Qed.

Lemma clamp_idem i n : clamp (clamp i n) n = clamp i n.
Proof. unfold clamp. lia. Qed.

Lemma clamp_nonneg i n : 0 ≤ clamp i n.
Proof. unfold clamp. lia. Qed.

(** ** What one run of the effect leaves *)

Lemma reconcile_index p w :
  let w' := exec (reconcile p) w in
  0 ≤ activeIndex (self w')
  ∧ (tabs p ≠ [] → activeIndex (self w') < Z.of_nat (length (tabs p)))
  ∧ (tabs p = [] → activeIndex (self w') = 0)
  ∧ (activeKey p = None →
     key_at (tabs p) (activeIndex (self w')) = mergedActiveKey p (self w')).
Proof.
  destruct (Z.eq_dec (findIndex (key_is (mergedActiveKey p (self w))) (tabs p)) (-1))
    as [Hmiss | Hfound]; cbn zeta; unfold exec.
  - rewrite (reconcile_missing p w Hmiss). cbn [fst snd self activeIndex].
    split; [apply clamp_nonneg |]. split; [| split].
    + intros Hne. pose proof (clamp_range (activeIndex (self w)) (length (tabs p))).
      destruct (tabs p); [done | cbn in *; lia].
    + intros ->. unfold clamp. cbn [length]. lia.
    + intros Hp. by rewrite (merged_uncontrolled _ _ Hp).
  - rewrite (reconcile_found p w Hfound). cbn [fst snd self activeIndex].
    destruct (findIndex_first _ _ Hfound) as (Hb & Hk & _).
    split; [lia |]. split; [intros _; lia |]. split.
    + intros Hnil. rewrite Hnil in Hfound. by cbn in Hfound.
    + intros Hp. rewrite Hk. by rewrite !(merged_uncontrolled _ _ Hp).
Qed.

Lemma mount_index env p w :
  activeIndex (self (exec (mount env p) w))
  = activeIndex (self (exec (reconcile p) (mkWorld (uuid w) (setup_instance p)))).
Proof.
  unfold mount. rewrite !exec_bind.
  set (w1 := exec (reconcile p) _).
  unfold onMounted_mobile, onMounted_id.
  destruct (id_falsy (id p)); reflexivity.
Qed.

(** X7. In every reachable state the active index is a position of
    the list (and 0 on an empty list), never -1; without external
    control the tab at that position carries the merged active key. *)
Theorem reachable_index c :
  reachable c →
  0 ≤ index c
  ∧ (tabs (props c) ≠ [] → index c < Z.of_nat (length (tabs (props c))))
  ∧ (tabs (props c) = [] → index c = 0)
  ∧ (activeKey (props c) = None → key_at (tabs (props c)) (index c) = active c).
Proof.
  intros Hreach. unfold index, active.
  destruct Hreach as [env p w | c c' _ Hstep].
  - cbn [props world]. rewrite mount_index.
    unfold mergedActiveKey. rewrite mount_selection.
    apply (reconcile_index p (mkWorld (uuid w) (setup_instance p))).
  - destruct Hstep as [c l n | c k n | c k e n]; unfold flush; cbn [props world];
      rewrite rerun_last; apply reconcile_index.
Qed.

Lemma reachable_index_witness :
  0 ≤ index Samples.after_removal
  ∧ index Samples.mounted_plain < 3
  ∧ key_at (tabs (props Samples.mounted_plain)) (index Samples.mounted_plain)
    = active Samples.mounted_plain.
Proof.
  split; [| split].
  - apply (reachable_index Samples.after_removal).
    apply (reach_step Samples.mounted_controlled).
    + exact (reach_mount Samples.browser Samples.controlled Samples.fresh).
    + exact (step_tabs Samples.mounted_controlled
               [Samples.pane "a"; Samples.pane "b"] 0).
  - apply (reachable_index Samples.mounted_plain
             (reach_mount Samples.browser Samples.plain Samples.fresh)).
    discriminate.
  - apply (reachable_index Samples.mounted_plain
             (reach_mount Samples.browser Samples.plain Samples.fresh)).
    reflexivity.
Defined.

(** X8. While some tab carries the merged active key the effect keeps
    the selection: it writes no key, and stores the position of the
    first tab carrying it. *)
Theorem reconcile_keeps p w tab :
  tab ∈ tabs p → key tab = mergedActiveKey p (self w) →
  let j := findIndex (key_is (mergedActiveKey p (self w))) (tabs p) in
  let w' := exec (reconcile p) w in
  log (reconcile p) w = [SetActiveIndex j]
  ∧ innerActiveKey (self w') = innerActiveKey (self w)
  ∧ mergedActiveKey p (self w') = mergedActiveKey p (self w)
  ∧ activeIndex (self w') = j
  ∧ 0 ≤ j < Z.of_nat (length (tabs p))
  ∧ key_at (tabs p) j = mergedActiveKey p (self w)
  ∧ (∀ i, 0 ≤ i < j → key_at (tabs p) i ≠ mergedActiveKey p (self w)).
Proof.
  intros Hin Hk j w'.
  pose proof (findIndex_present _ _ tab Hin Hk) as Hfound.
  destruct (findIndex_first _ _ Hfound) as (Hb & Hkey & Hfirst).
  unfold w', log, exec. rewrite (reconcile_found p w Hfound).
  cbn [fst snd self activeIndex innerActiveKey].
  repeat split; first [done | lia | exact Hkey | exact Hfirst].
Qed.

Lemma reconcile_keeps_witness :
  log (reconcile Samples.plain) (mkWorld 0 (mkInstance false (Some "x") 0 None))
  = [SetActiveIndex 1].
Proof.
  apply (reconcile_keeps Samples.plain (mkWorld 0 (mkInstance false (Some "x") 0 None))
           (Samples.pane "x")).
  - vm_compute. right. left.
  - reflexivity.
Defined.

(** ** Fixpoints of the effect *)

Lemma settled_found p w :
  findIndex (key_is (mergedActiveKey p (self w))) (tabs p) = activeIndex (self w) →
  activeIndex (self w) ≠ -1 → settled p w.
Proof.
  intros Heq Hne. unfold settled, exec.
  rewrite reconcile_found by congruence. rewrite Heq.
  by destruct w as [u [m k i d]].
Qed.

Lemma settled_missing p w :
  findIndex (key_is (mergedActiveKey p (self w))) (tabs p) = -1 →
  clamp (activeIndex (self w)) (length (tabs p)) = activeIndex (self w) →
  key_at (tabs p) (activeIndex (self w)) = innerActiveKey (self w) →
  settled p w.
Proof.
  intros Hmiss Hc Hk. unfold settled, exec.
  rewrite (reconcile_missing p w Hmiss). cbn [fst snd]. rewrite Hc, Hk.
  by destruct w as [u [m k i d]].
Qed.

Lemma run_found_settled p w :
  findIndex (key_is (mergedActiveKey p (self w))) (tabs p) ≠ -1 →
  settled p (exec (reconcile p) w).
Proof.
  intros Hfound. unfold exec. rewrite (reconcile_found p w Hfound). cbn [fst snd].
  by apply settled_found.
Qed.

Lemma run_missing_again p w :
  findIndex (key_is (mergedActiveKey p (self w))) (tabs p) = -1 →
  findIndex (key_is (mergedActiveKey p (self (exec (reconcile p) w)))) (tabs p) = -1 →
  settled p (exec (reconcile p) w).
Proof.
  intros Hmiss. unfold exec. rewrite (reconcile_missing p w Hmiss). cbn [fst snd].
  intros Hagain. apply settled_missing; [done | apply clamp_idem | done].
Qed.

(** X9. The effect comes to rest: after two runs a further run changes
    nothing, so its re-running on its own writes ends. *)
Theorem reconcile_settles p w :
  settled p (exec (reconcile p) (exec (reconcile p) w)).
Proof.
  assert (∀ v, settled p v → settled p (exec (reconcile p) v)) as Hstay.
  { intros v Hv. unfold settled in *. by rewrite !Hv. }
  destruct (Z.eq_dec (findIndex (key_is (mergedActiveKey p (self w))) (tabs p)) (-1))
    as [Hmiss | Hfound].
  - destruct (Z.eq_dec (findIndex (key_is (mergedActiveKey p
        (self (exec (reconcile p) w)))) (tabs p)) (-1)) as [Hagain | Hnow].
    + apply Hstay. by apply run_missing_again.
    + by apply run_found_settled.
  - apply Hstay. by apply run_found_settled.
Qed.

Lemma key_at_unique l i j :
  NoDup (key <$> l) →
  0 ≤ i < Z.of_nat (length l) → 0 ≤ j < Z.of_nat (length l) →
  key_at l i = key_at l j → i = j.
Proof.
  intros Hnd Hi Hj. unfold key_at.
  destruct (Z.ltb_spec i 0); [lia |]. destruct (Z.ltb_spec j 0); [lia |].
  destruct (lookup_lt_is_Some_2 l (Z.to_nat i) ltac:(lia)) as [x Hx].
  destruct (lookup_lt_is_Some_2 l (Z.to_nat j) ltac:(lia)) as [y Hy].
  rewrite Hx, Hy. cbn. intros Hxy.
  assert (Z.to_nat i = Z.to_nat j); [| lia].
  apply (NoDup_lookup (key <$> l) _ _ (key x)); [done | |].
  - by rewrite list_lookup_fmap, Hx.
  - by rewrite list_lookup_fmap, Hy, Hxy.
Qed.

(** X10. When the keys of the tabs are pairwise distinct one run is
    enough: the state after it is already at rest. *)
Theorem reconcile_settles_unique p w :
  NoDup (key <$> tabs p) → settled p (exec (reconcile p) w).
Proof.
  intros Hnd.
  destruct (Z.eq_dec (findIndex (key_is (mergedActiveKey p (self w))) (tabs p)) (-1))
    as [Hmiss | Hfound]; [| by apply run_found_settled].
  destruct (Z.eq_dec (findIndex (key_is (mergedActiveKey p
      (self (exec (reconcile p) w)))) (tabs p)) (-1)) as [Hagain | Hnow];
    [by apply run_missing_again |].
  revert Hnow. unfold exec. rewrite (reconcile_missing p w Hmiss). cbn [fst snd].
  set (c := clamp (activeIndex (self w)) (length (tabs p))).
  intros Hnow. apply settled_found; cbn [self activeIndex]; [| unfold c, clamp; lia].
  destruct (findIndex_first _ _ Hnow) as (Hb & Hk & _).
  revert Hb Hk. set (j := findIndex _ _). intros Hb Hk.
  assert (activeKey p = None) as Hp.
  { destruct (activeKey p) as [a |] eqn:Ha; [| done]. exfalso. apply Hnow.
    unfold mergedActiveKey in *. rewrite Ha in *. exact Hmiss. }
  rewrite (merged_uncontrolled _ _ Hp) in Hk. cbn [self innerActiveKey] in Hk.
  apply (key_at_unique (tabs p)); [done | lia | | done].
  pose proof (clamp_range (activeIndex (self w)) (length (tabs p))). fold c in H.
  lia.
Qed.

Lemma reconcile_settles_unique_witness :
  settled Samples.plain (exec (reconcile Samples.plain) Samples.orphaned).
Proof.
  apply (reconcile_settles_unique Samples.plain Samples.orphaned).
  refine (bool_decide_unpack _ _). vm_compute. exact I.
Defined.

(** ** Clicks *)

Lemma rerun_keeps p tab n : ∀ w,
  activeKey p = None → tab ∈ tabs p → key tab = innerActiveKey (self w) →
  innerActiveKey (self (rerun n p w)) = innerActiveKey (self w).
Proof.
  induction n as [| n IH]; intros w Hp Hin Hk; [done |].
  cbn [rerun].
  assert (innerActiveKey (self (exec (reconcile p) w)) = innerActiveKey (self w)) as Hrun.
  { unfold exec. rewrite reconcile_found; [done |].
    apply (findIndex_present _ _ tab Hin). by rewrite (merged_uncontrolled _ _ Hp). }
  rewrite IH; [done | done | done | by rewrite Hrun].
Qed.

(** X11. Without external control, a click on a key some tab carries
    selects it: once the effect has run, the merged active key is the
    clicked key and the active index is a position carrying it. *)
Theorem click_selects c k e n tab :
  activeKey (props c) = None → tab ∈ tabs (props c) → key tab = Some k →
  active (flush n (click k e c)) = Some k
  ∧ key_at (tabs (props c)) (index (flush n (click k e c))) = Some k.
Proof.
  intros Hp Hin Hk.
  assert (active (flush n (click k e c)) = Some k) as Hact.
  { unfold active, flush, click. cbn [props world].
    rewrite (merged_uncontrolled _ _ Hp).
    rewrite (rerun_keeps (props c) tab (S n)); [apply onInternalTabClick_selection | done..|].
    by rewrite onInternalTabClick_selection. }
  split; [done |]. rewrite <- Hact.
  unfold index, active, flush, click. cbn [props world]. rewrite rerun_last.
  by apply reconcile_index.
Qed.

Lemma click_selects_witness :
  active (flush 0 (click "b" (MouseEvent 1) Samples.mounted_plain)) = Some "b".
Proof.
  apply (click_selects Samples.mounted_plain "b" (MouseEvent 1) 0 (Samples.pane "b")).
  - reflexivity.
  - vm_compute. do 2 right. left.
  - reflexivity.
Defined.

(** ** What reaches the parent *)

Lemma emitted_calls l : calls l = [] → ATabs.emitted l = [].
Proof.
  unfold calls, ATabs.emitted. induction l as [| e l IH]; [done |].
  cbn [List.filter]. destruct e; cbn; try done; apply IH.
Qed.

Lemma calls_app l1 l2 : calls (l1 ++ l2) = (calls l1 ++ calls l2)%list.
Proof. unfold calls. apply List.filter_app. Qed.

Lemma reconcile_calls p w : calls (log (reconcile p) w) = [].
Proof.
  destruct (Z.eq_dec (findIndex (key_is (mergedActiveKey p (self w))) (tabs p)) (-1))
    as [Hmiss | Hfound]; unfold log.
  - by rewrite (reconcile_missing p w Hmiss).
  - by rewrite (reconcile_found p w Hfound).
Qed.

(** X12. Rendered by the wrapper, a click always reaches the parent:
    it emits [update:activeKey] and then [change], once each, with the
    clicked key, after the [onTabClick] handler if there is one. *)
Theorem wrapper_click_emits p l k e w :
  ATabs.emitted (log (onInternalTabClick (ATabs.internal_props p l) k e) w)
  = [ATabs.EmitUpdateActiveKey k; ATabs.EmitChange k]
  ∧ calls (log (onInternalTabClick (ATabs.internal_props p l) k e) w)
    = ((if onTabClick p then [CallOnTabClick k e] else []) ++ [CallOnChange k])%list.
Proof.
  rewrite onInternalTabClick_log. cbn [ATabs.internal_props onTabClick onChange].
  by destruct (onTabClick p).
Qed.

(** X13. The effect and the mount call no handler and emit nothing:
    a key re-derived after a removal is not reported to the parent. *)
Theorem effect_is_silent env p w :
  calls (log (reconcile p) w) = []
  ∧ ATabs.emitted (log (reconcile p) w) = []
  ∧ calls (log (mount env p) w) = []
  ∧ ATabs.emitted (log (mount env p) w) = [].
Proof.
  assert (calls (log (mount env p) w) = []) as Hmount.
  { destruct (mount_id env p w) as (w0 & _ & _ & ->).
    rewrite !calls_app, reconcile_calls. unfold log at 1.
    rewrite onMounted_id_run. by destruct (id_falsy (id p)). }
  split; [apply reconcile_calls |]. split; [apply emitted_calls, reconcile_calls |].
  split; [done | by apply emitted_calls].
Qed.

(** ** What a step leaves alone *)

Lemma reconcile_frame p w :
  uuid (exec (reconcile p) w) = uuid w
  ∧ mobile (self (exec (reconcile p) w)) = mobile (self w)
  ∧ innerId (self (exec (reconcile p) w)) = innerId (self w).
Proof.
  destruct (Z.eq_dec (findIndex (key_is (mergedActiveKey p (self w))) (tabs p)) (-1))
    as [Hmiss | Hfound]; unfold exec.
  - by rewrite (reconcile_missing p w Hmiss).
  - by rewrite (reconcile_found p w Hfound).
Qed.

Lemma rerun_frame p n : ∀ w,
  uuid (rerun n p w) = uuid w
  ∧ mobile (self (rerun n p w)) = mobile (self w)
  ∧ innerId (self (rerun n p w)) = innerId (self w).
Proof.
  induction n as [| n IH]; intros w; [done |]. cbn [rerun].
  destruct (IH (exec (reconcile p) w)) as (-> & -> & ->). apply reconcile_frame.
Qed.

Lemma click_frame p k e w :
  uuid (exec (onInternalTabClick p k e) w) = uuid w
  ∧ mobile (self (exec (onInternalTabClick p k e) w)) = mobile (self w)
  ∧ innerId (self (exec (onInternalTabClick p k e) w)) = innerId (self w)
  ∧ activeIndex (self (exec (onInternalTabClick p k e) w)) = activeIndex (self w).
Proof.
  unfold onInternalTabClick, exec, mbind, M_bind.
  by destruct (onTabClick p), (onChange p).
Qed.

(** X14. No step consumes the id counter, regenerates the id or
    changes the mobile flag: those are written at mount only. *)
Theorem step_frame c c' :
  step c c' →
  uuid (world c') = uuid (world c)
  ∧ mobile (self (world c')) = mobile (self (world c))
  ∧ innerId (self (world c')) = innerId (self (world c)).
Proof.
  intros [c0 l n | c0 k n | c0 k e n]; unfold flush, click; cbn [props world].
  - apply rerun_frame.
  - apply rerun_frame.
  - destruct (rerun_frame (props c0) (S n)
                (exec (onInternalTabClick (props c0) k e) (world c0)))
      as (-> & -> & ->).
    destruct (click_frame (props c0) k e (world c0)) as (-> & -> & -> & _). done.
Qed.

Lemma step_frame_witness :
  uuid (world Samples.after_removal) = uuid (world Samples.mounted_controlled).
Proof.
  apply (step_frame Samples.mounted_controlled Samples.after_removal).
  exact (step_tabs Samples.mounted_controlled [Samples.pane "a"; Samples.pane "b"] 0).
Defined.

(** ** Mounting *)

Lemma mount_mobile env p w : mobile (self (exec (mount env p) w)) = isMobile env.
Proof.
  unfold mount. rewrite !exec_bind.
  set (w1 := exec (reconcile p) _).
  unfold onMounted_mobile, onMounted_id.
  destruct (id_falsy (id p)); reflexivity.
Qed.

(** X15. The position before and after mounting: the state [setup]
    creates is not mobile, so the declared position stands until the
    component is mounted; mounting stores [isMobile()], and from then a
    position other than left and right is top exactly on a mobile
    device. *)
Theorem mount_position env p w :
  mergedTabPosition p (setup_instance p) = tabPosition p
  ∧ mobile (self (exec (mount env p) w)) = isMobile env
  ∧ mergedTabPosition p (self (exec (mount env p) w))
    = (if isMobile env && negb (includes ["left"; "right"] (tabPosition p))
       then "top" else tabPosition p).
Proof.
  split; [done |]. split; [apply mount_mobile |].
  unfold mergedTabPosition. by rewrite mount_mobile.
Qed.

(** X16. Without external control the selection a mount leaves is the
    default key when a tab carries it, and the key of the first tab
    otherwise: when no default is given, and also when the default
    matches no tab; on an empty list it is unset. *)
Theorem mount_selects env p w :
  activeKey p = None →
  active (mkConfig p (exec (mount env p) w)) =
    match defaultActiveKey p with
    | Some d => if bool_decide (Some d ∈ key <$> tabs p) then Some d
                else key_at (tabs p) 0
    | None => key_at (tabs p) 0
    end.
Proof.
  intros Hp. unfold active. cbn [props world].
  rewrite (merged_uncontrolled _ _ Hp), mount_selection.
  set (w0 := mkWorld (uuid w) (setup_instance p)).
  assert (mergedActiveKey p (self w0)
          = useMergedState_init (key_at (tabs p) 0) (defaultActiveKey p)) as Hm.
  { by rewrite (merged_uncontrolled _ _ Hp). }
  destruct (Z.eq_dec (findIndex (key_is (mergedActiveKey p (self w0))) (tabs p)) (-1))
    as [Hmiss | Hfound]; unfold exec.
  - rewrite (reconcile_missing p w0 Hmiss). cbn [fst snd self innerActiveKey activeIndex].
    assert (activeIndex (self w0)
            = findIndex (key_is (mergedActiveKey p (self w0))) (tabs p)) as Hidx
      by reflexivity.
    rewrite Hidx, Hmiss.
    replace (clamp (-1) (length (tabs p))) with 0 by (unfold clamp; lia).
    rewrite Hm in Hmiss.
    destruct (defaultActiveKey p) as [d |]; [| done].
    cbn [useMergedState_init] in Hmiss.
    rewrite bool_decide_eq_false_2; [done |].
    intros Hin. apply list_elem_of_fmap in Hin as (tab & Hk & Hin).
    by apply (proj1 (findIndex_missing _ _) Hmiss tab).
  - rewrite (reconcile_found p w0 Hfound). cbn [fst snd self innerActiveKey].
    destruct (findIndex_found _ _ Hfound) as (tab & Hin & Hk). rewrite Hm in Hk.
    cbn [w0 self setup_instance innerActiveKey].
    destruct (defaultActiveKey p) as [d |]; [| done].
    cbn [useMergedState_init] in *. rewrite bool_decide_eq_true_2; [done |].
    apply list_elem_of_fmap. by exists tab.
Qed.

Lemma mount_selects_witness :
  active (mkConfig MoreSamples.stale_default
            (exec (mount Samples.browser MoreSamples.stale_default) Samples.fresh))
  = Some "a".
Proof.
  rewrite (mount_selects Samples.browser MoreSamples.stale_default Samples.fresh);
    [| reflexivity].
  vm_compute. reflexivity.
Defined.

Lemma mount_fresh env p w :
  id p = None →
  uuid (exec (mount env p) w) = (uuid w + 1)%N
  ∧ mergedId p (self (exec (mount env p) w)) = Some (fresh_id env (uuid w)).
Proof.
  intros Hid. destruct (mount_id env p w) as (w0 & Hu & -> & _).
  unfold exec, mergedId. rewrite onMounted_id_run, Hid. cbn. by rewrite Hu.
Qed.

Lemma mount_all_from env ps : ∀ w x,
  Forall (λ p, id p = None) ps → x ∈ mount_all env ps w →
  ∃ u, (uuid w ≤ u)%N ∧ x = Some (fresh_id env u).
Proof.
  induction ps as [| p ps IH]; intros w x Hall Hx; cbn [mount_all] in Hx.
  - by apply elem_of_nil in Hx.
  - apply Forall_cons in Hall as [Hp Hall].
    destruct (mount_fresh env p w Hp) as [Hu Hid].
    apply elem_of_cons in Hx as [-> | Hx].
    + exists (uuid w). split; [lia | done].
    + destruct (IH _ x Hall Hx) as (u & Hle & ->). exists u. split; [lia | done].
Qed.

(** X17. Outside the test environment, any number of components
    mounted one after the other without an [id] prop receive pairwise
    distinct ids, one each. *)
Theorem mount_all_distinct env ps w :
  node_env_test env = false → Forall (λ p, id p = None) ps →
  NoDup (mount_all env ps w) ∧ length (mount_all env ps w) = length ps.
Proof.
  intros Henv. revert w. induction ps as [| p ps IH]; intros w Hall; cbn [mount_all].
  - split; [constructor | done].
  - apply Forall_cons in Hall as [Hp Hall].
    destruct (mount_fresh env p w Hp) as [Hu Hid].
    destruct (IH (exec (mount env p) w) Hall) as [Hnd Hlen].
    split; [| cbn; by rewrite Hlen]. constructor; [| done].
    rewrite Hid. intros Hin.
    destruct (mount_all_from env ps _ _ Hall Hin) as (u & Hle & Heq).
    assert (fresh_id env (uuid w) = fresh_id env u) as Hfresh by congruence.
    apply (fresh_id_inj env _ _ Henv) in Hfresh. lia.
Qed.

Lemma mount_all_distinct_witness :
  NoDup (mount_all Samples.browser [Samples.plain; MoreSamples.silent; Samples.plain]
           Samples.fresh).
Proof.
  apply (mount_all_distinct Samples.browser
           [Samples.plain; MoreSamples.silent; Samples.plain] Samples.fresh).
  - reflexivity.
  - repeat constructor.
Defined.

(** ** The editable configuration *)

(** X18. The editable configuration exists exactly for the
    editable-card type; its add button shows unless [hideAdd] is set;
    and without an [onEdit] handler an edit interaction does nothing. *)
Theorem editable_cases p :
  match editable p with
  | None => type p ≠ Some "editable-card"
  | Some cfg =>
      type p = Some "editable-card"
      ∧ showAdd cfg = negb (hideAdd p)
      ∧ (onEdit p = false →
         ∀ t info w, editable_onEdit cfg t info w = (tt, w, []))
  end.
Proof.
  unfold editable. case_bool_decide as Ht; [| done].
  split; [done |]. split; [done |]. cbn. by intros ->.
Qed.

Lemma editable_cases_witness :
  ∃ cfg, editable MoreSamples.unhandled = Some cfg
    ∧ showAdd cfg = false
    ∧ editable_onEdit cfg remove (mkEditInfo (Some "a") (MouseEvent 2)) Samples.fresh
      = (tt, Samples.fresh, []).
Proof.
  pose proof (editable_cases MoreSamples.unhandled) as H.
  destruct (editable MoreSamples.unhandled) as [cfg |] eqn:E.
  - exists cfg. destruct H as (_ & Hshow & Hquiet).
    split; [reflexivity |]. split; [exact Hshow | by apply Hquiet].
  - by destruct H.
Defined.

End TabsMore.
